(** * llm-testing: the scoring and transcript pipeline, embedded and verified

    The development follows the two scripts of the repository:
    - [score-results.py]: [parse_score], [calculate_statistics], the two
      judge clients with their streaming fallback, [score_results_file]
      and [main];
    - [run-test-suite.py]: [prompt], [run_test_suite] and [main].

    Python values are modelled as the interpreter has them: [int] is
    unbounded ([Z]), [float] is IEEE binary64 (Rocq's primitive floats,
    with the exactly rounded operations of the runtime written over
    [SpecFloat]), [str] is a sequence of Unicode code points, [dict] is a
    finite map, [None] is [None].  Exceptions are values of [exn]; code
    that talks to the outside world runs in a state-and-exception monad
    over a trace of events. *)

From Stdlib Require Import ZArith NArith Floats String Ascii Lia Bool.
From stdpp Require Import base option list gmap.

#[local] Set Warnings "-register-all,-inexact-float".
#[local] Open Scope Z_scope.

(** ** Exceptions and results *)

Inductive exn : Type :=
| FileNotFoundError
| ValueError
| KeyError
| TypeError
| AttributeError
| ImportError
| IndexError
| OverflowError
| ZeroDivisionError
| YAMLError
| OpenAIError
| APIError (code : N).

Inductive result (A : Type) : Type :=
| Ok (a : A)
| Raise (e : exn).
Arguments Ok {A} a.
Arguments Raise {A} e.

Definition rbind {A B} (r : result A) (k : A -> result B) : result B :=
  match r with
  | Ok a => k a
  | Raise e => Raise e
  end.

Declare Scope result_scope.
Delimit Scope result_scope with result.
Notation "'let?' x ':=' r 'in' k" := (rbind r (fun x => k))
  (at level 10, x name, r at level 100, k at level 200) : result_scope.
#[local] Open Scope result_scope.

(** ** Text: [str] as a sequence of code points *)

Module Text.

Definition char := N.
Definition str := list char.

(** A literal of the source, read as code points. *)
Definition u (s : string) : str := List.map N_of_ascii (list_ascii_of_string s).

(** The code points for which [str.isspace] holds; the regular
    expression class [\s] on [str] patterns is the same set. *)
Definition whitespace : list char :=
  [9; 10; 11; 12; 13; 28; 29; 30; 31; 32; 133; 160; 5760;
   8192; 8193; 8194; 8195; 8196; 8197; 8198; 8199; 8200; 8201; 8202;
   8232; 8233; 8239; 8287; 12288]%N.

Definition is_space (c : char) : bool := existsb (N.eqb c) whitespace.

(** The decimal digits of the Unicode database (category Nd, Unicode
    14.0 as in CPython 3.11): blocks of consecutive code points whose
    values run 0..9; one block holds five such runs. *)
Definition decimal_blocks : list (char * N) :=
  [(48, 10); (1632, 10); (1776, 10); (1984, 10); (2406, 10); (2534, 10);
   (2662, 10); (2790, 10); (2918, 10); (3046, 10); (3174, 10); (3302, 10);
   (3430, 10); (3558, 10); (3664, 10); (3792, 10); (3872, 10); (4160, 10);
   (4240, 10); (6112, 10); (6160, 10); (6470, 10); (6608, 10); (6784, 10);
   (6800, 10); (6992, 10); (7088, 10); (7232, 10); (7248, 10); (42528, 10);
   (43216, 10); (43264, 10); (43472, 10); (43504, 10); (43600, 10);
   (44016, 10); (65296, 10); (66720, 10); (68912, 10); (69734, 10);
   (69872, 10); (69942, 10); (70096, 10); (70384, 10); (70736, 10);
   (70864, 10); (71248, 10); (71360, 10); (71472, 10); (71904, 10);
   (72016, 10); (72784, 10); (73040, 10); (73120, 10); (92768, 10);
   (92864, 10); (93008, 10); (120782, 50); (123200, 10); (123632, 10);
   (125264, 10); (130032, 10)]%N.

Definition in_block (c : char) (b : char * N) : bool :=
  (N.leb (fst b) c && N.ltb c (fst b + snd b))%N.

(** [Py_UNICODE_TODECIMAL]: the digit value of a decimal code point. *)
Definition decimal_value (c : char) : option Z :=
  match List.find (in_block c) decimal_blocks with
  | Some b => Some (Z.of_N ((c - fst b) mod 10))
  | None => None
  end.

(** The class [\d] on [str] patterns. *)
Definition is_decimal (c : char) : bool :=
  match decimal_value c with Some _ => true | None => false end.

(** [str.strip()] with no argument. *)
Fixpoint lstrip (s : str) : str :=
  match s with
  | c :: s' => if is_space c then lstrip s' else s
  | [] => []
  end.
Definition rstrip (s : str) : str := rev (lstrip (rev s)).
Definition strip (s : str) : str := rstrip (lstrip s).

(** The value of a digit string read left to right. *)
Definition digits_value (ds : str) : Z :=
  fold_left (fun acc c => 10 * acc + default 0 (decimal_value c)) ds 0.

(** [sys.get_int_max_str_digits()], the interpreter's default. *)
Definition int_max_str_digits : nat := 4300.

(** [int(s)] on the strings the source passes to it, the groups
    matched by [\d+]: a digit string converts to its value unless it
    is longer than the interpreter's limit; the model raises
    [ValueError] on any other string. *)
Definition py_int (s : str) : result Z :=
  if forallb is_decimal s && negb (Nat.eqb (length s) 0) then
    if Nat.ltb int_max_str_digits (length s) then Raise ValueError
    else Ok (digits_value s)
  else Raise ValueError.

End Text.
Import Text.

(** ** Numbers: [int] and [float] *)

Module Num.

Definition prec : Z := 53.
Definition emax : Z := 1024.

Definition sf_of_Z (z : Z) : spec_float :=
  match z with
  | Z0 => S754_zero false
  | Zpos p => S754_finite false p 0
  | Zneg p => S754_finite true p 0
  end.

(** The integer of magnitude [n >= 0] and sign [s], zero keeping its
    sign. *)
Definition sf_signed (s : bool) (n : Z) : spec_float :=
  match n with
  | Zpos p => S754_finite s p 0
  | _ => S754_zero s
  end.

(** The least magnitude that rounds beyond the largest finite float:
    half an ulp above [2^1024 - 2^971]. *)
Definition overflow_threshold : Z := 2 ^ 1024 - 2 ^ 970.

(** [int / int]: [ZeroDivisionError] on a zero divisor, [OverflowError]
    when the quotient rounds beyond the finite floats, and otherwise
    the quotient rounded once to the nearest binary64 (ties to even). *)
Definition int_true_div (a b : Z) : result float :=
  if b =? 0 then Raise ZeroDivisionError
  else if Z.abs b * overflow_threshold <=? Z.abs a then Raise OverflowError
  else Ok (SF2Prim (SFdiv prec emax (sf_of_Z a) (sf_of_Z b))).

(** [float(n)] for an [int]: the nearest binary64, [OverflowError]
    beyond the range. *)
Definition float_of_int (z : Z) : result float :=
  if overflow_threshold <=? Z.abs z then Raise OverflowError
  else Ok (SF2Prim (binary_normalize prec emax z 0 false)).

(** Division of [n] by [d > 0] rounded to the nearest integer, ties to
    even. *)
Definition div_half_even (n d : Z) : Z :=
  let q := n / d in
  match 2 * (n mod d) ?= d with
  | Lt => q
  | Gt => q + 1
  | Eq => if Z.even q then q else q + 1
  end.

(** The magnitude of a finite float in hundredths, rounded half to even
    on its exact binary value. *)
Definition hundredths (m : positive) (e : Z) : Z :=
  if 0 <=? e then Z.pos m * 2 ^ e * 100
  else div_half_even (Z.pos m * 100) (2 ^ (- e)).

(** [round(x, 2)] on a float: the exact value is rounded to two
    decimals (correctly, ties to even), and the decimal obtained is
    read back as the nearest binary64; infinities and NaN are returned
    unchanged. *)
Definition float_round2 (x : float) : float :=
  match Prim2SF x with
  | S754_finite s m e =>
      SF2Prim (SFdiv prec emax (sf_signed s (hundredths m e)) (sf_of_Z 100))
  | _ => x
  end.

(** A number as [parse_score] produces it: an [int] or a [float]. *)
Inductive pynum : Type :=
| PInt (z : Z)
| PFloat (f : float).

(** [round(x, 2)]: an [int] is returned as it is. *)
Definition py_round2 (x : pynum) : pynum :=
  match x with
  | PInt z => PInt z
  | PFloat f => PFloat (float_round2 f)
  end.

(** [x + y]. *)
Definition py_add (x y : pynum) : result pynum :=
  match x, y with
  | PInt a, PInt b => Ok (PInt (a + b))
  | PInt a, PFloat g => let? f := float_of_int a in Ok (PFloat (f + g)%float)
  | PFloat f, PInt b => let? g := float_of_int b in Ok (PFloat (f + g)%float)
  | PFloat f, PFloat g => Ok (PFloat (f + g)%float)
  end.

(** [x / n] for a list length [n]. *)
Definition py_div_len (x : pynum) (n : nat) : result float :=
  match x with
  | PInt a => int_true_div a (Z.of_nat n)
  | PFloat f =>
      if Nat.eqb n 0 then Raise ZeroDivisionError
      else let? d := float_of_int (Z.of_nat n) in Ok (f / d)%float
  end.

(** The built-in [sum] as documented: the items are added to the start
    value 0 from left to right. *)
Fixpoint sum_from (acc : pynum) (l : list pynum) : result pynum :=
  match l with
  | [] => Ok acc
  | x :: l' => let? acc' := py_add acc x in sum_from acc' l'
  end.
Definition sum_left_to_right (l : list pynum) : result pynum := sum_from (PInt 0) l.

Definition sum_int (l : list Z) : Z := fold_left Z.add l 0.

End Num.
Import Num.

(** ** The fragment of [re] used by the source

    A pattern is a sequence of elements, each a character set taken once
    or one-or-more times (greedy), possibly inside a capturing group.
    Matching is by backtracking, longest repetition first, as the [re]
    module does. *)

Module Re.

Inductive cset : Type :=
| Digit               (* \d *)
| Space               (* \s *)
| Lit (c : char)      (* a literal character *)
| OneOf (cs : list char).   (* a set [...], as a letter under IGNORECASE *)

Definition cset_mem (k : cset) (c : char) : bool :=
  match k with
  | Digit => is_decimal c
  | Space => is_space c
  | Lit a => N.eqb a c
  | OneOf cs => existsb (N.eqb c) cs
  end.

Inductive quant : Type := Once | OneOrMore.

Record elem : Type := Elem { capture : bool; rep : quant; cls : cset }.

Definition pattern := list elem.

(** One or more characters of [k], at least one already taken: take
    as many as possible, give back one at a time while the rest of the
    pattern fails. *)
Fixpoint many_greedy {R} (k : cset) (cont : str -> str -> option R)
    (taken rest : str) : option R :=
  match rest with
  | c :: rest' =>
      if cset_mem k c then
        match many_greedy k cont (taken ++ [c]) rest' with
        | Some r => Some r
        | None => cont taken rest
        end
      else cont taken rest
  | [] => cont taken rest
  end.

(** A match of [p] at the beginning of [s]: the captured groups in
    order and the input left after the match. *)
Fixpoint match_here (p : pattern) (s : str) : option (list str * str) :=
  match p with
  | [] => Some ([], s)
  | e :: p' =>
      let cont := fun taken rest =>
        match match_here p' rest with
        | Some (gs, tl) => Some (if capture e then taken :: gs else gs, tl)
        | None => None
        end in
      match s with
      | c :: s' =>
          if cset_mem (cls e) c then
            match rep e with
            | Once => cont [c] s'
            | OneOrMore => many_greedy (cls e) cont [c] s'
            end
          else None
      | [] => None
      end
  end.

(** [re.search]: the match at the first position that has one. *)
Fixpoint search_from (p : pattern) (i : nat) (s : str) : option (nat * list str) :=
  match match_here p s with
  | Some (gs, _) => Some (i, gs)
  | None =>
      match s with
      | [] => None
      | _ :: s' => search_from p (S i) s'
      end
  end.

Definition search (p : pattern) (s : str) : option (nat * list str) :=
  search_from p 0 s.

Definition lits (s : string) : pattern := List.map (fun c => Elem false Once (Lit c)) (u s).

End Re.
Import Re.

(** ** Effects: a trace of events and exceptions *)

Module Eff.

Section WithEvent.
Context {E : Type}.

(** A computation reads the events so far, returns or raises, and
    leaves the extended trace behind, also when it raises. *)
Definition M (A : Type) : Type := list E -> result A * list E.

Definition ret {A} (a : A) : M A := fun tr => (Ok a, tr).
Definition raise {A} (e : exn) : M A := fun tr => (Raise e, tr).
Definition lift {A} (r : result A) : M A := fun tr => (r, tr).

Definition bind {A B} (m : M A) (k : A -> M B) : M B :=
  fun tr =>
    match m tr with
    | (Ok a, tr') => k a tr'
    | (Raise e, tr') => (Raise e, tr')
    end.

(** [try: m except Exception as e: h e]. *)
Definition try_except {A} (m : M A) (h : exn -> M A) : M A :=
  fun tr =>
    match m tr with
    | (Ok a, tr') => (Ok a, tr')
    | (Raise e, tr') => h e tr'
    end.

(** Record an event. *)
Definition emit (e : E) : M unit := fun tr => (Ok tt, tr ++ [e]).

(** An operation of the outside world: its outcome may depend on
    what happened before; the event is recorded either way. *)
Definition perform {A} (e : E) (outcome : list E -> result A) : M A :=
  fun tr => (outcome tr, tr ++ [e]).

(** [acc = init; for x in l: acc = body acc x]. *)
Fixpoint for_each {A B} (l : list A) (body : B -> A -> M B) (acc : B) : M B :=
  match l with
  | [] => ret acc
  | x :: l' => bind (body acc x) (for_each l' body)
  end.

End WithEvent.

Arguments M : clear implicits.

End Eff.
Import Eff.

Declare Scope eff_scope.
Delimit Scope eff_scope with eff.
Notation "'do' x '<-' m ';' k" := (bind m (fun x => k))
  (at level 10, x name, m at level 100, k at level 200) : eff_scope.
Notation "'do' '_' '<-' m ';' k" := (bind m (fun _ => k))
  (at level 10, m at level 100, k at level 200) : eff_scope.

(** ** Configuration documents

    What [yaml.safe_load] returns: the JSON values, scalars, sequences
    and mappings, and the values that [json] cannot write, dates,
    bytes and sets.  The type is given over the values of the second
    kind: the scoring configuration, whose fields are read one by one,
    is taken over none of them, the suite configuration, which is
    written to the manifest as a whole, over all of them. *)

Module Config.

Inductive yaml_of (O : Type) : Type :=
| YNull
| YBool (b : bool)
| YInt (z : Z)
| YFloat (f : float)
| YStr (s : str)
| YSeq (l : list (yaml_of O))
| YMap (m : gmap str (yaml_of O))
| YOther (o : O).
Arguments YNull {O}.
Arguments YBool {O} b.
Arguments YInt {O} z.
Arguments YFloat {O} f.
Arguments YStr {O} s.
Arguments YSeq {O} l.
Arguments YMap {O} m.
Arguments YOther {O} o.

(** A document, and a mapping, over the values that fit its use. *)
Abbreviation yaml := (yaml_of _).
Abbreviation dict := (gmap str (yaml_of _)).

(** [!!timestamp], [!!binary] and [!!set]: a [datetime.date] or
    [datetime.datetime], [bytes], a [set]. *)
Inductive other : Type :=
| Timestamp (iso : str)
| Binary (data : list N)
| SetOf (size : nat).

(** The documents of the scoring configuration and of the suite
    configuration. *)
Abbreviation json_value := (yaml_of Empty_set).
Abbreviation document := (yaml_of other).

(** The truth value of the values of the second kind. *)
Class Truth (O : Type) : Type := truth : O -> bool.

#[export] Instance no_truth : Truth Empty_set := fun o => match o with end.

#[export] Instance other_truth : Truth other := fun o =>
  match o with
  | Timestamp _ => true
  | Binary data => negb (Nat.eqb (length data) 0)
  | SetOf size => negb (Nat.eqb size 0)
  end.

(** [d.get(key, default)]. *)
Definition get {O} (d : gmap str (yaml_of O)) (key : string) (dflt : yaml_of O)
    : yaml_of O :=
  default dflt (d !! u key).

(** [d.get(key)]: [None] when the key is absent. *)
Definition get_none {O} (d : gmap str (yaml_of O)) (key : string) : yaml_of O :=
  get d key YNull.

(** [d[key]]. *)
Definition item {O} (d : gmap str (yaml_of O)) (key : string) : result (yaml_of O) :=
  match d !! u key with
  | Some v => Ok v
  | None => Raise KeyError
  end.

(** A value used as a mapping: [.get] on anything else raises
    [AttributeError], subscripting with a key raises [TypeError]. *)
Definition as_dict {O} (e : exn) (v : yaml_of O) : result (gmap str (yaml_of O)) :=
  match v with
  | YMap m => Ok m
  | _ => Raise e
  end.

(** Truth value of a document: [None], [False], zero and empty
    containers are false. *)
Definition truthy {O} `{Truth O} (v : yaml_of O) : bool :=
  match v with
  | YNull => false
  | YBool b => b
  | YInt z => negb (z =? 0)
  | YFloat f => negb (PrimFloat.eqb f 0)
  | YStr s => negb (Nat.eqb (length s) 0)
  | YSeq l => negb (Nat.eqb (length l) 0)
  | YMap m => negb (Nat.eqb (size m) 0)
  | YOther o => truth o
  end.

(** [v == "literal"]. *)
Definition is_str {O} (v : yaml_of O) (lit : string) : bool :=
  match v with
  | YStr s => bool_decide (s = u lit)
  | _ => false
  end.

(** [range(v)]: the indices [0 .. v-1] for an integer (a boolean is
    an integer), [TypeError] for anything else. *)
Definition range {O} (v : yaml_of O) : result (list nat) :=
  match v with
  | YInt z => Ok (seq 0 (Z.to_nat z))
  | YBool b => Ok (seq 0 (if b then 1 else 0))
  | _ => Raise TypeError
  end.

(** A document [json.dump] can write: one that holds no date, bytes or
    set; on any other one it raises [TypeError] when it comes to the
    value. *)
Fixpoint dumpable {O} (v : yaml_of O) : bool :=
  match v with
  | YSeq l => forallb dumpable l
  | YMap m => map_fold (fun _ v' acc => dumpable v' && acc) true m
  | YOther _ => false
  | _ => true
  end.

End Config.
Import Config.

(** ** [score-results.py]: parsing and statistics *)

Module Score.

(** The dictionary returned by [parse_score]; [parse_error] is the key
    that is present only when parsing failed. *)
Record run : Type := Run {
  correct : option Z;
  total : option Z;
  percentage : option pynum;
  raw_output : str;
  parse_error : option str
}.

(** The compiled pattern [(\d+)\s+out\s+of\s+(\d+)]. *)
Definition score_pattern : pattern :=
  [Elem true OneOrMore Digit; Elem false OneOrMore Space]
  ++ lits "out" ++ [Elem false OneOrMore Space]
  ++ lits "of" ++ [Elem false OneOrMore Space; Elem true OneOrMore Digit].

Definition parse_score (result_text : str) : result run :=
  match search score_pattern result_text with
  | Some (_, gs) =>
      let? g1 := match gs !! 0%nat with Some g => Ok g | None => Raise IndexError end in
      let? correct := py_int g1 in
      let? g2 := match gs !! 1%nat with Some g => Ok g | None => Raise IndexError end in
      let? total := py_int g2 in
      let? percentage :=
        (if 0 <? total
         then let? q := int_true_div correct total in Ok (PFloat (q * 100)%float)
         else Ok (PInt 0)) in
      Ok {| correct := Some correct;
            total := Some total;
            percentage := Some (py_round2 percentage);
            raw_output := strip result_text;
            parse_error := None |}
  | None =>
      Ok {| correct := None;
            total := None;
            percentage := None;
            raw_output := strip result_text;
            parse_error := Some (u "Could not parse score from output") |}
  end.

(** The dictionary returned by [calculate_statistics]. *)
Record summary : Type := Summary {
  mean_correct : option float;
  mean_percentage : option float;
  min_correct : option Z;
  max_correct : option Z;
  all_runs_parsed : bool
}.

(** [min] and [max] of a non-empty list of integers. *)
Definition list_min (x : Z) (l : list Z) : Z := fold_left Z.min l x.
Definition list_max (x : Z) (l : list Z) : Z := fold_left Z.max l x.

Section Statistics.

(** The built-in [sum] applied to the percentages.  How it
    accumulates floats depends on the interpreter (plain additions
    from left to right, or compensated summation in later versions),
    so the statistics are defined over any such routine;
    [sum_left_to_right] is the documented one. *)
Variable psum : list pynum -> result pynum.

Definition calculate_statistics (runs : list run) : result summary :=
  let correct_scores := omap correct runs in
  let percentages := omap percentage runs in
  match correct_scores with
  | [] =>
      Ok {| mean_correct := None;
            mean_percentage := None;
            min_correct := None;
            max_correct := None;
            all_runs_parsed := false |}
  | c :: cs =>
      let? mc := int_true_div (sum_int correct_scores) (Z.of_nat (length correct_scores)) in
      let? sp := psum percentages in
      let? mp := py_div_len sp (length percentages) in
      Ok {| mean_correct := Some (float_round2 mc);
            mean_percentage := Some (float_round2 mp);
            min_correct := Some (list_min c cs);
            max_correct := Some (list_max c cs);
            all_runs_parsed := Nat.eqb (length correct_scores) (length runs) |}
  end.

End Statistics.

End Score.
Import Score.


(** ** [score-results.py]: the judge clients and the scoring run *)

Module Judge.

Definition EVALUATION_PROMPT : str := u
"You are a research assistant, evaluating the responses to some exam questions on Kubernetes.

The user submits questions and answers, both the expected answers as well as the actual answers provided by a candidate.

Your task is to evaluate whether the actual answer is correct or not, and then count the number of correct answers. Any single answer may only be correct or incorrect.

Correct means that the answer contains the necessary information. A correct answer is not necessarily identical to the expected answer.

Example input:

---
NO. 2 - Setup & Aliases
QUESTION: How do you enable bash autocompletion for the 'k' alias?
EXPECTED ANSWER: complete -F __start_kubectl k
ACTUAL ANSWER: ```bash
source <(kubectl completion bash)
alias k=kubectl
complete -F __start_kubectl k
```

Example output:

58 out of 100 answers are correct.
".

(** What every judge call is given: the model name of the
    configuration, the evaluation prompt and the transcript. *)
Record judge_args : Type := JudgeArgs {
  ja_model : json_value;
  ja_prompt : str;
  ja_content : str
}.

(** The calls made on the client objects. *)
Inductive call : Type :=
| MessagesStream (a : judge_args) (max_tokens : Z)          (* client.messages.stream *)
| MessagesCreate (a : judge_args) (max_tokens : Z)          (* client.messages.create *)
| ChatCompletions (a : judge_args) (stream : bool).         (* client.chat.completions.create *)

Definition call_args (c : call) : judge_args :=
  match c with
  | MessagesStream a _ | MessagesCreate a _ | ChatCompletions a _ => a
  end.

Definition is_streaming (c : call) : bool :=
  match c with
  | MessagesStream _ _ => true
  | MessagesCreate _ _ => false
  | ChatCompletions _ st => st
  end.

(** The document written by [json.dump]. *)
Record metadata : Type := Metadata {
  md_timestamp : str;
  md_results_file : str;
  md_scoring_api : json_value;
  md_scoring_model : json_value;
  md_repetitions : json_value
}.

Record output : Type := Output {
  out_metadata : metadata;
  out_runs : list run;
  out_summary : summary
}.

Inductive event : Type :=
| Api (c : call)
| WriteScores (results_file : str) (out : output).

(** The outside world of a scoring run.  A streamed reply is the list
    of chunks delivered and the exception that ended the stream, if
    any (raised when the stream is opened or while it is consumed); a
    chunk of the chat API may carry no content.  Replies may depend on
    the events so far.  [path_str p] is [str(Path(p))], the path as
    pathlib writes it. *)
Record world : Type := World {
  exists_file : str -> bool;
  read_file : str -> result str;
  environ : gmap str str;
  anthropic_installed : bool;
  now_isoformat : str;
  path_str : str -> str;
  anthropic_stream : list event -> judge_args -> list str * option exn;
  anthropic_create : list event -> judge_args -> result str;
  local_stream : list event -> judge_args -> list (option str) * option exn;
  local_create : list event -> judge_args -> result (option str)
}.

Inductive client : Type :=
| Anthropic (api_key : str)
| OpenAI (api_key : str) (base_url : json_value).

Section WithWorld.
Variable w : world.
Variable psum : list pynum -> result pynum.

#[local] Open Scope eff_scope.

Definition create_client (config : gmap str json_value) : result client :=
  if is_str (get_none config "api") "anthropic" then
    if negb (anthropic_installed w) then Raise ImportError
    else
      let key := default [] (environ w !! u "ANTHROPIC_API_KEY") in
      if Nat.eqb (length key) 0 then Raise ValueError
      else Ok (Anthropic key)
  else if is_str (get_none config "api") "local" then
    Ok (OpenAI (u "not-needed") (get_none config "endpoint"))
  else Raise ValueError.

(** The outcome of consuming a stream: [full_response] when it ran
    to its end, the exception otherwise. *)
Definition consume {A} (reply : list A * option exn) (add : str -> A -> str)
    : result str :=
  match reply with
  | (chunks, None) => Ok (fold_left add chunks [])
  | (_, Some e) => Raise e
  end.

Definition evaluate_with_anthropic (config : gmap str json_value) (content : str)
    : M event (option str) :=
  let args := JudgeArgs (get_none config "model") EVALUATION_PROMPT content in
  try_except
    (do full_response <-
       perform (Api (MessagesStream args 4096))
         (fun tr => consume (anthropic_stream w tr args) (fun acc text => acc ++ text));
     ret (Some full_response))
    (fun _ =>
       do result <-
         perform (Api (MessagesCreate args 4096)) (fun tr => anthropic_create w tr args);
       ret (Some result)).

Definition evaluate_with_local (config : gmap str json_value) (content : str)
    : M event (option str) :=
  let args := JudgeArgs (get_none config "model") EVALUATION_PROMPT content in
  try_except
    (do full_response <-
       perform (Api (ChatCompletions args true))
         (fun tr => consume (local_stream w tr args)
            (fun acc chunk =>
               match chunk with
               | Some content_chunk =>
                   if Nat.eqb (length content_chunk) 0 then acc else acc ++ content_chunk
               | None => acc
               end));
     ret (Some full_response))
    (fun _ =>
       perform (Api (ChatCompletions args false)) (fun tr => local_create w tr args)).

Definition evaluate_results (config : gmap str json_value) (content : str) : M event (option str) :=
  if is_str (get_none config "api") "anthropic"
  then evaluate_with_anthropic config content
  else evaluate_with_local config content.

(** [parse_score] as called on the judge's reply: [re.search] raises
    [TypeError] on [None]. *)
Definition parse_reply (result_text : option str) : result run :=
  match result_text with
  | Some t => parse_score t
  | None => Raise TypeError
  end.

(** The model returns the document that is written next to the
    results file (the source returns its path). *)
Definition score_results_file (config : gmap str json_value) (results_file : str)
    : M event output :=
  if negb (exists_file w results_file) then raise FileNotFoundError
  else
    let scoring_model := get_none config "model" in
    let scoring_api := get_none config "api" in
    let repetitions := get config "repetitions" (YInt 3) in
    do content <- lift (read_file w results_file);
    do _ <- lift (create_client config);
    do indices <- lift (range repetitions);
    do runs <-
      for_each indices
        (fun runs _ =>
           do result_text <- evaluate_results config content;
           do parsed <- lift (parse_reply result_text);
           ret (runs ++ [parsed]))
        [];
    do stats <- lift (calculate_statistics psum runs);
    let output :=
      {| out_metadata :=
           {| md_timestamp := now_isoformat w;
              md_results_file := path_str w results_file;
              md_scoring_api := scoring_api;
              md_scoring_model := scoring_model;
              md_repetitions := repetitions |};
         out_runs := runs;
         out_summary := stats |} in
    do _ <- emit (WriteScores results_file output);
    ret output.

End WithWorld.




End Judge.

(** ** [run-test-suite.py]: generation of the transcripts *)

Module Suite.

(** A [pathlib.Path] as the sequence of the operands of [/] that
    built it.  An operand may hold separators or [..], or be absolute,
    in which case pathlib drops what stands before it: which file a
    path names is left to the world. *)
Definition path := list str.

(** A row of [csv.DictReader]: the columns of the header, each with
    the field of the row, or with [None] where the row is too short. *)
Abbreviation row := (gmap str (option str)).

(** The arguments of [client.chat.completions.create]. *)
Record request : Type := Request {
  rq_model : document;
  rq_system : document;
  rq_question : option str;
  rq_temperature : document
}.

Record manifest_entry : Type := ManifestEntry {
  me_model_name : document;
  me_results_file : path
}.

(** [test_run_metadata]; the wall-clock durations are left out. *)
Record manifest : Type := Manifest {
  mf_test_suite_config : document;
  mf_models : list manifest_entry
}.

(** A write is recorded when it is begun: when it raises, the file may
    hold a part of the text. *)
Inductive event : Type :=
| Mkdir (p : path)
| PrintTemperature (v : document)      (* print(f"Temperature: {...}") *)
| Generate (r : request)               (* a chat completion for one question *)
| WriteText (p : path) (content : str)
| WriteManifest (p : path) (m : manifest).

Definition is_generate (e : event) : bool :=
  match e with Generate _ => true | _ => false end.

(** The outside world of a run.  [read_rows] gives the rows the
    reader yields and the exception that ended the reading, if any;
    [completion] is the content of the first choice of the reply,
    which may be [None]; [write_text] and [dump_json] are what
    opening a file and writing to it come to, apart from the values
    [json] cannot write. *)
Record world : Type := World {
  exists_path : path -> bool;
  load_yaml : path -> result document;
  read_rows : path -> list row * option exn;
  environ : gmap str str;
  now_stamp : str;
  completion : list event -> request -> result (option str);
  write_text : list event -> path -> str -> result unit;
  dump_json : list event -> path -> manifest -> result unit
}.

Record client : Type := OpenAI { api_key : document; base_url : document }.

(** [f"{x}"] for a reply or a field. *)
Definition fmt (x : option str) : str :=
  match x with Some t => t | None => u "None" end.

Section WithWorld.
Variable w : world.

(** [str.format(model=..., timestamp=...)] on the file name
    pattern. *)
Variable format_filename : document -> document -> str -> result str.

#[local] Open Scope eff_scope.

Definition load_config (test_suite_path : path) : result document :=
  let config_file := test_suite_path ++ [u "config.yaml"] in
  if negb (exists_path w config_file) then Raise FileNotFoundError
  else load_yaml w config_file.

(** The constructor of the client takes the key of the environment
    variable [OPENAI_API_KEY] when it is given [None], and raises
    without one. *)
Definition create_client (config : gmap str document) : result client :=
  let? api_config := as_dict AttributeError (get config "api" (YMap ∅)) in
  let api_key_env := get api_config "api_key_env" (YStr (u "OPENAI_API_KEY")) in
  let api_key_default := get api_config "api_key_default" (YStr (u "not-needed")) in
  let? api_key :=
    match api_key_env with
    | YStr name => Ok (from_option YStr api_key_default (environ w !! name))
    | _ => Raise TypeError
    end in
  let base_url := get api_config "base_url" (YStr (u "http://localhost:1234/v1")) in
  match api_key with
  | YNull =>
      match environ w !! u "OPENAI_API_KEY" with
      | Some key => Ok (OpenAI (YStr key) base_url)
      | None => Raise OpenAIError
      end
  | _ => Ok (OpenAI api_key base_url)
  end.

Definition prompt (model_config : document) (prompt_config : document)
    (question : option str) : M event (option str) :=
  do mc <- lift (as_dict AttributeError model_config);
  let model_name := get mc "name" (YStr (u "gpt-3.5-turbo")) in
  do pc <- lift (as_dict AttributeError prompt_config);
  let system_message := get pc "system_message" (YStr (u "You are a helpful assistant.")) in
  let temperature := get mc "temperature" (YFloat 0.0) in
  let rq := Request model_name system_message question temperature in
  perform (Generate rq) (fun tr => completion w tr rq).

(** [r[key]] on a row: [KeyError] for a column the header has not. *)
Definition field (r : row) (key : string) : result (option str) :=
  match r !! u key with
  | Some v => Ok v
  | None => Raise KeyError
  end.

(** The block appended for one question. *)
Definition block (qid section question expected_answer result : option str) : str :=
  u "---" ++ [10%N]
  ++ u "NO. " ++ fmt qid ++ u " - " ++ fmt section ++ [10%N]
  ++ u "QUESTION: " ++ fmt question ++ [10%N]
  ++ u "EXPECTED ANSWER: " ++ fmt expected_answer ++ [10%N]
  ++ u "ACTUAL ANSWER: " ++ fmt result ++ [10%N].

(** The body of the loop over the rows of the question file, on
    [output] and [question_count]. *)
Definition process_row (model_config prompt_config : document) (acc : str * nat) (r : row)
    : M event (str * nat) :=
  let '(output, question_count) := acc in
  do qid <- lift (field r "ID");
  do section <- lift (field r "Section");
  do question <- lift (field r "Question");
  do expected_answer <- lift (field r "ExpectedAnswer");
  do result <- prompt model_config prompt_config question;
  ret (output ++ block qid section question expected_answer result,
       S question_count).

(** The loop over the rows, up to the end of the file or the exception
    that ends the reading. *)
Definition process_questions (model_config prompt_config : document)
    (source : list row * option exn) : M event (str * nat) :=
  do out <- for_each (fst source) (process_row model_config prompt_config) ([], 0%nat);
  match snd source with
  | Some e => raise e
  | None => ret out
  end.

(** The body of the loop over the models. *)
Definition process_model (config : gmap str document) (results_path questions_path : path)
    (prompt_config : document) (models_done : list manifest_entry)
    (model_config : document) : M event (list manifest_entry) :=
  do mc <- lift (as_dict AttributeError model_config);
  let model_name := get mc "name" (YStr (u "unknown")) in
  do _ <- emit (PrintTemperature (get mc "temperature" (YFloat 0.7)));
  do out <- process_questions model_config prompt_config (read_rows w questions_path);
  do output_cfg <- lift (as_dict AttributeError (get config "output" (YMap ∅)));
  let filename_pattern := get output_cfg "filename_pattern" (YStr (u "results_{model}.txt")) in
  do filename <- lift (format_filename filename_pattern model_name (now_stamp w));
  let output_path := results_path ++ [filename] in
  do _ <- perform (WriteText output_path (fst out))
            (fun tr => write_text w tr output_path (fst out));
  ret (models_done ++ [ManifestEntry model_name output_path]).

(** [model['name']] in the listing of the models to test. *)
Definition model_name_item (model : document) : result document :=
  let? d := as_dict TypeError model in item d "name".

Fixpoint check_names (models : list document) : result unit :=
  match models with
  | [] => Ok tt
  | m :: ms => let? _ := model_name_item m in check_names ms
  end.

(** [json.dump] of the manifest into the file opened for it: it raises
    [TypeError] on a configuration that holds a date, bytes or a set,
    if nothing else has gone wrong before. *)
Definition write_manifest (p : path) (m : manifest) : M event unit :=
  perform (WriteManifest p m)
    (fun tr =>
       let? _ := dump_json w tr p m in
       if dumpable (mf_test_suite_config m) then Ok tt else Raise TypeError).

Definition run_test_suite (test_suite : str) : M event unit :=
  let test_suite_path := [u "test_suites"; test_suite] in
  if negb (exists_path w test_suite_path) then raise FileNotFoundError
  else
    let timestamp := now_stamp w in
    let results_path := [u "results"; test_suite ++ u "_" ++ timestamp] in
    do _ <- emit (Mkdir results_path);
    do loaded <- lift (load_config test_suite_path);
    do config <- lift (as_dict AttributeError loaded);
    do api <- lift (item config "api");
    do api_d <- lift (as_dict TypeError api);
    do _ <- lift (item api_d "base_url");
    let models := get config "models" (YSeq []) in
    if negb (truthy models) then raise ValueError
    else
      do model_list <- lift (match models with YSeq l => Ok l | _ => Raise TypeError end);
      do _ <- lift (check_names model_list);
      do _ <- lift (create_client config);
      let questions_file := get config "questions_file" (YStr (u "questions.csv")) in
      do questions_path <-
        lift (match questions_file with
              | YStr f => Ok (test_suite_path ++ [f])
              | _ => Raise TypeError
              end);
      if negb (exists_path w questions_path) then raise FileNotFoundError
      else
        let prompt_config := get config "prompt" (YMap ∅) in
        do entries <-
          for_each model_list
            (process_model config results_path questions_path prompt_config) [];
        do _ <- write_manifest (results_path ++ [u "resultset.json"])
                  (Manifest (YMap config) entries);
        ret tt.

End WithWorld.

End Suite.

(** ** Specification vocabulary *)

Module Spec.

(** *** What a pattern denotes *)

(** The text an element may match. *)
Definition piece_ok (e : elem) (piece : str) : Prop :=
  piece <> []
  /\ Forall (fun c => cset_mem (cls e) c = true) piece
  /\ (rep e = Once -> length piece = 1%nat).

(** [lang p m gs]: [m] is matched by [p] with captured groups [gs]. *)
Fixpoint lang (p : pattern) (m : str) (gs : list str) : Prop :=
  match p with
  | [] => m = [] /\ gs = []
  | e :: p' =>
      exists piece m' gs',
        m = piece ++ m' /\ piece_ok e piece /\ lang p' m' gs'
        /\ gs = if capture e then piece :: gs' else gs'
  end.

(** An occurrence of [p] in [s] starting at position [i]. *)
Definition occurs_at (p : pattern) (s : str) (i : nat) (gs : list str) : Prop :=
  exists pre m post, s = pre ++ m ++ post /\ length pre = i /\ lang p m gs.

Definition occurs (p : pattern) (s : str) : Prop :=
  exists i gs, occurs_at p s i gs.

(** The head of [s] is not in [k]. *)
Definition stops (k : cset) (s : str) : Prop :=
  match s with
  | c :: _ => cset_mem k c = false
  | [] => True
  end.

(** Pieces that leave the matcher no choice: every repetition is
    followed by a character outside its set. *)
Fixpoint tight (p : pattern) (pieces : list str) (rest : str) : Prop :=
  match p, pieces with
  | [], [] => True
  | e :: p', x :: xs =>
      piece_ok e x
      /\ (rep e = OneOrMore -> stops (cls e) (concat xs ++ rest))
      /\ tight p' xs rest
  | _, _ => False
  end.

Fixpoint captured (p : pattern) (pieces : list str) : list str :=
  match p, pieces with
  | e :: p', x :: xs => if capture e then x :: captured p' xs else captured p' xs
  | _, _ => []
  end.

(** *** The score phrase *)

Definition digits (d : str) : Prop :=
  d <> [] /\ Forall (fun c => is_decimal c = true) d.

Definition blanks (b : str) : Prop :=
  b <> [] /\ Forall (fun c => is_space c = true) b.

Definition starts_with_digit (s : str) : bool :=
  match s with
  | c :: _ => is_decimal c
  | [] => false
  end.

(** The phrase the source looks for: an integer, [out], [of] and an
    integer, in lower case and separated by runs of whitespace. *)
Definition score_phrase (d1 d2 m : str) : Prop :=
  exists b1 b2 b3,
    digits d1 /\ blanks b1 /\ blanks b2 /\ blanks b3 /\ digits d2
    /\ m = d1 ++ b1 ++ u "out" ++ b2 ++ u "of" ++ b3 ++ d2.

(** The phrase as the specification words it: [<integer> out of
    <integer>] with the words in any case and single spaces, that is
    the pattern [(\d+) out of (\d+)] under IGNORECASE. *)
Definition claimed_pattern : pattern :=
  [Elem true OneOrMore Digit; Elem false Once (Lit 32%N);
   Elem false Once (OneOf (u "oO")); Elem false Once (OneOf (u "uU"));
   Elem false Once (OneOf (u "tT")); Elem false Once (Lit 32%N);
   Elem false Once (OneOf (u "oO")); Elem false Once (OneOf (u "fF"));
   Elem false Once (Lit 32%N); Elem true OneOrMore Digit].

(** The percentage of [correct] in [total] as the specification words
    it: the quotient times 100, 0 for a zero total, rounded to two
    decimals. *)
Definition percent (correct total : Z) : result pynum :=
  if total =? 0 then Ok (PInt 0)
  else let? q := int_true_div correct total in
       Ok (PFloat (float_round2 (q * 100)%float)).

(** *** Statistics *)

(** The arithmetic mean of integers, and of numbers under a given
    summation. *)
Definition mean_int (l : list Z) : result float :=
  int_true_div (sum_int l) (Z.of_nat (length l)).

Definition mean_num (psum : list pynum -> result pynum) (l : list pynum) : result float :=
  let? s := psum l in py_div_len s (length l).

(** A percentage as [parse_score] computes it: the integer 0 or a
    float. *)
Definition plain (x : pynum) : Prop := x = PInt 0 \/ exists f, x = PFloat f.

(** A run from which a score was parsed. *)
Definition parsed (r : run) : Prop := correct r <> None.

(** A run that carries a number. *)
Definition has_score (r : run) : bool :=
  match correct r, percentage r with
  | None, None => false
  | _, _ => true
  end.

(** *** Transcripts *)

(** A row with the four columns of the question source. *)
Definition well_formed (r : Suite.row) : Prop :=
  is_Some (r !! u "ID") /\ is_Some (r !! u "Section")
  /\ is_Some (r !! u "Question") /\ is_Some (r !! u "ExpectedAnswer").

(** The field of a column; [None] is the field of a row that is too
    short, and of a column that is absent. *)
Definition column (r : Suite.row) (key : string) : option str :=
  default None (r !! u key).

(** A field as it shows in a text: an absent one shows as [None]. *)
Definition shown (x : option str) : str :=
  match x with
  | Some t => t
  | None => u "None"
  end.

(** A text given by its lines, each ended by a line feed. *)
Definition lines (l : list str) : str := concat (map (fun t => t ++ [10%N]) l).

(** The answer block of a question record, as the specification gives
    it:
<<
    ---
    NO. <id> - <section>
    QUESTION: <question>
    EXPECTED ANSWER: <expected>
    ACTUAL ANSWER: <actual>
>> *)
Definition block_of (r : Suite.row) (answer : option str) : str :=
  lines [u "---";
         u "NO. " ++ shown (column r "ID") ++ u " - " ++ shown (column r "Section");
         u "QUESTION: " ++ shown (column r "Question");
         u "EXPECTED ANSWER: " ++ shown (column r "ExpectedAnswer");
         u "ACTUAL ANSWER: " ++ shown answer].

(** The question of a generation call. *)
Definition asked (e : Suite.event) : option (option str) :=
  match e with
  | Suite.Generate rq => Some (Suite.rq_question rq)
  | _ => None
  end.

(** The replies to a sequence of generation calls made one after the
    other from the trace [tr]: [answers] holds, call by call, what the
    world returns for the request at the point where it is made. *)
Fixpoint replies (w : Suite.world) (tr : list Suite.event) (calls : list Suite.request)
    (answers : list (option str)) : Prop :=
  match calls, answers with
  | [], [] => True
  | rq :: calls', a :: answers' =>
      Suite.completion w tr rq = Ok a
      /\ replies w (tr ++ [Suite.Generate rq]) calls' answers'
  | _, _ => False
  end.

(** The temperature of a generation call. *)
Definition sent_temperature (e : Suite.event) : option document :=
  match e with
  | Suite.Generate rq => Some (Suite.rq_temperature rq)
  | _ => None
  end.

(** An event that is no generation call, or one sent with temperature
    [t]. *)
Definition sends (t : document) (e : Suite.event) : Prop :=
  forall v, sent_temperature e = Some v -> v = t.

(** The setup errors of a run: no configuration file, no models
    configured, no question file. *)
Definition setup_error (w : Suite.world) (test_suite : str) : Prop :=
  let suite_path := [u "test_suites"; test_suite] in
  let config_file := suite_path ++ [u "config.yaml"] in
  Suite.exists_path w config_file = false
  \/ (exists config,
        Suite.load_yaml w config_file = Ok (YMap config)
        /\ truthy (get config "models" (YSeq [])) = false)
  \/ (exists config f,
        Suite.load_yaml w config_file = Ok (YMap config)
        /\ get config "questions_file" (YStr (u "questions.csv")) = YStr f
        /\ Suite.exists_path w (suite_path ++ [f]) = false).


End Spec.
Import Spec.

(** ** Sample inputs *)

Module Sample.

(** Three judgments, the second one without a score. *)
Definition run_8 : run :=
  {| correct := Some 8; total := Some 10; percentage := Some (PFloat 80);
     raw_output := u "8 out of 10 answers are correct."; parse_error := None |}.

Definition run_none : run :=
  {| correct := None; total := None; percentage := None;
     raw_output := u "I am unable to grade this.";
     parse_error := Some (u "Could not parse score from output") |}.

Definition run_7 : run :=
  {| correct := Some 7; total := Some 10; percentage := Some (PFloat 70);
     raw_output := u "7 out of 10"; parse_error := None |}.

Definition run_9 : run :=
  {| correct := Some 9; total := Some 10; percentage := Some (PFloat 90);
     raw_output := u "9 out of 10"; parse_error := None |}.

(** A scoring run against a local judge: the first reply is streamed in
    chunks, the second stream breaks and the blocking call answers
    without a score, the third reply is streamed. *)
Definition judge_config : gmap str json_value :=
  <[u "api" := YStr (u "local")]>
    (<[u "model" := YStr (u "judge")]> (<[u "repetitions" := YInt 3]> ∅)).


Definition results_file : str := u "results/demo/results_m1.txt".

Definition judge_world : Judge.world :=
  {| Judge.exists_file := fun p => bool_decide (p = results_file);
     Judge.read_file := fun _ => Ok (u "--- NO. 1 - Setup");
     Judge.environ := ∅;
     Judge.anthropic_installed := false;
     Judge.now_isoformat := u "2026-01-01T00:00:00";
     Judge.path_str := fun p => p;
     Judge.anthropic_stream := fun _ _ => ([], Some (APIError 500));
     Judge.anthropic_create := fun _ _ => Raise (APIError 500);
     Judge.local_stream := fun tr _ =>
       match length tr with
       | 0%nat => ([Some (u "8 out of"); None; Some (u " 10 answers are correct.")], None)
       | 1%nat => ([Some (u "5 out")], Some (APIError 503))
       | _ => ([Some (u "7 out of 10")], None)
       end;
     Judge.local_create := fun _ _ => Ok (Some (u "I am unable to grade this.")) |}.

(** The same judge for the scoring script, which also finds its
    configuration file. *)
Definition scoring_world : Judge.world :=
  {| Judge.exists_file := fun _ => true;
     Judge.read_file := Judge.read_file judge_world;
     Judge.environ := ∅;
     Judge.anthropic_installed := false;
     Judge.now_isoformat := Judge.now_isoformat judge_world;
     Judge.path_str := fun p => p;
     Judge.anthropic_stream := Judge.anthropic_stream judge_world;
     Judge.anthropic_create := Judge.anthropic_create judge_world;
     Judge.local_stream := Judge.local_stream judge_world;
     Judge.local_create := Judge.local_create judge_world |}.

Definition safe_load_demo (text : str) : result json_value := Ok (YMap judge_config).

(** A suite of two questions and one model. *)
Definition suite_rows : list Suite.row :=
  [ <[u "ID" := Some (u "1")]> (<[u "Section" := Some (u "Setup")]>
      (<[u "Question" := Some (u "Which alias is used?")]>
         (<[u "ExpectedAnswer" := Some (u "k")]> ∅)));
    <[u "ID" := Some (u "2")]> (<[u "Section" := Some (u "Pods")]>
      (<[u "Question" := Some (u "How do you list pods?")]>
         (<[u "ExpectedAnswer" := Some (u "kubectl get pods")]> ∅))) ].

Definition suite_model : gmap str document := <[u "name" := YStr (u "m1")]> ∅.

Definition suite_config : gmap str document :=
  <[u "api" := YMap (<[u "base_url" := YStr (u "http://localhost:1234/v1")]> ∅)]>
    (<[u "models" := YSeq [YMap suite_model]]> ∅).

Definition suite_world : Suite.world :=
  {| Suite.exists_path := fun _ => true;
     Suite.load_yaml := fun _ => Ok (YMap suite_config);
     Suite.read_rows := fun _ => (suite_rows, None);
     Suite.environ := ∅;
     Suite.now_stamp := u "20260101-000000";
     Suite.completion := fun _ rq =>
       Ok (Some (u "Answer: " ++ Suite.fmt (Suite.rq_question rq)));
     Suite.write_text := fun _ _ _ => Ok tt;
     Suite.dump_json := fun _ _ _ => Ok tt |}.

(** The same suite without its configuration file. *)
Definition bare_world : Suite.world :=
  {| Suite.exists_path := fun p => bool_decide (p = [u "test_suites"; u "demo"]);
     Suite.load_yaml := fun _ => Raise FileNotFoundError;
     Suite.read_rows := fun _ => ([], Some FileNotFoundError);
     Suite.environ := ∅;
     Suite.now_stamp := u "20260101-000000";
     Suite.completion := fun _ rq =>
       Ok (Some (u "Answer: " ++ Suite.fmt (Suite.rq_question rq)));
     Suite.write_text := fun _ _ _ => Ok tt;
     Suite.dump_json := fun _ _ _ => Ok tt |}.

Definition format_demo (pattern model : document) (timestamp : str) : result str :=
  Ok (u "results_m1.txt").

(** The same suite with a date in its configuration, as in
    [created: 2026-01-01]. *)
Definition dated_config : gmap str document :=
  <[u "created" := YOther (Timestamp (u "2026-01-01"))]> suite_config.

Definition dated_world : Suite.world :=
  {| Suite.exists_path := fun _ => true;
     Suite.load_yaml := fun _ => Ok (YMap dated_config);
     Suite.read_rows := fun _ => (suite_rows, None);
     Suite.environ := ∅;
     Suite.now_stamp := u "20260101-000000";
     Suite.completion := fun _ rq =>
       Ok (Some (u "Answer: " ++ Suite.fmt (Suite.rq_question rq)));
     Suite.write_text := fun _ _ _ => Ok tt;
     Suite.dump_json := fun _ _ _ => Ok tt |}.

(** The same suite for a model whose name holds a separator: the
    transcript goes to a directory that does not exist. *)
Definition slash_model : gmap str document := <[u "name" := YStr (u "org/m1")]> ∅.

Definition format_slash (pattern model : document) (timestamp : str) : result str :=
  Ok (u "results_org/m1.txt").

Definition slash_world : Suite.world :=
  {| Suite.exists_path := fun _ => true;
     Suite.load_yaml := fun _ => Ok (YMap suite_config);
     Suite.read_rows := fun _ => (suite_rows, None);
     Suite.environ := ∅;
     Suite.now_stamp := u "20260101-000000";
     Suite.completion := fun _ rq =>
       Ok (Some (u "Answer: " ++ Suite.fmt (Suite.rq_question rq)));
     Suite.write_text := fun _ _ _ => Raise FileNotFoundError;
     Suite.dump_json := fun _ _ _ => Ok tt |}.

(** A configuration whose default key is [null], in a world without
    [OPENAI_API_KEY]. *)
Definition keyless_config : gmap str document :=
  <[u "api" := YMap (<[u "base_url" := YStr (u "http://localhost:1234/v1")]>
                       (<[u "api_key_default" := YNull]> ∅))]>
    (<[u "models" := YSeq [YMap suite_model]]> ∅).

(** A row that ends after its first field. *)
Definition short_row : Suite.row :=
  <[u "ID" := Some (u "3")]> (<[u "Section" := None]>
    (<[u "Question" := None]> (<[u "ExpectedAnswer" := None]> ∅))).

Definition short_transcript : str := u
"---
NO. 3 - None
QUESTION: None
EXPECTED ANSWER: None
ACTUAL ANSWER: Answer: None
".

(** What the run on [suite_world] makes of it. *)
Definition suite_request (question : string) : Suite.request :=
  Suite.Request (YStr (u "m1")) (YStr (u "You are a helpful assistant."))
    (Some (u question)) (YFloat 0).

Definition suite_transcript : str := u
"---
NO. 1 - Setup
QUESTION: Which alias is used?
EXPECTED ANSWER: k
ACTUAL ANSWER: Answer: Which alias is used?
---
NO. 2 - Pods
QUESTION: How do you list pods?
EXPECTED ANSWER: kubectl get pods
ACTUAL ANSWER: Answer: How do you list pods?
".

Definition suite_calls : list Suite.event :=
  [Suite.Generate (suite_request "Which alias is used?");
   Suite.Generate (suite_request "How do you list pods?")].

Definition suite_results_path : Suite.path := [u "results"; u "demo_20260101-000000"].

Definition suite_questions_path : Suite.path :=
  [u "test_suites"; u "demo"; u "questions.csv"].

Definition suite_entry : Suite.manifest_entry :=
  Suite.ManifestEntry (YStr (u "m1")) (suite_results_path ++ [u "results_m1.txt"]).

Definition model_trace : list Suite.event :=
  Suite.PrintTemperature (YFloat 0.7) :: suite_calls
  ++ [Suite.WriteText (suite_results_path ++ [u "results_m1.txt"]) suite_transcript].

Definition suite_trace : list Suite.event :=
  Suite.Mkdir suite_results_path :: model_trace
  ++ [Suite.WriteManifest (suite_results_path ++ [u "resultset.json"])
        (Suite.Manifest (YMap suite_config) [suite_entry])].

(** What the scoring run on [judge_world] makes of it. *)
Definition judge_args : Judge.judge_args :=
  Judge.JudgeArgs (YStr (u "judge")) Judge.EVALUATION_PROMPT (u "--- NO. 1 - Setup").

Definition judge_summary : summary :=
  {| mean_correct := Some 7.5%float;
     mean_percentage := Some 75%float;
     min_correct := Some 7;
     max_correct := Some 8;
     all_runs_parsed := false |}.

Definition judge_output : Judge.output :=
  {| Judge.out_metadata :=
       {| Judge.md_timestamp := u "2026-01-01T00:00:00";
          Judge.md_results_file := results_file;
          Judge.md_scoring_api := YStr (u "local");
          Judge.md_scoring_model := YStr (u "judge");
          Judge.md_repetitions := YInt 3 |};
     Judge.out_runs := [run_8; run_none; run_7];
     Judge.out_summary := judge_summary |}.

Definition judge_trace : list Judge.event :=
  [Judge.Api (Judge.ChatCompletions judge_args true);
   Judge.Api (Judge.ChatCompletions judge_args true);
   Judge.Api (Judge.ChatCompletions judge_args false);
   Judge.Api (Judge.ChatCompletions judge_args true);
   Judge.WriteScores results_file judge_output].



End Sample.

(** ** The entry points *)

(** How [main] ends: it returns, [sys.exit] is called, or an
    exception leaves it. *)
Inductive outcome : Type :=
| Returned
| Exit (status : Z)
| Uncaught (e : exn).


Module ScoreMain.

Section WithWorld.
Variable w : Judge.world.
Variable psum : list pynum -> result pynum.

(** [yaml.safe_load] on the text of a file. *)
Variable safe_load : str -> result json_value.

Definition config_file : str := u "scoring_config.yaml".

Definition load_config : result json_value :=
  if negb (Judge.exists_file w config_file) then Raise FileNotFoundError
  else let? text := Judge.read_file w config_file in safe_load text.

(** [score_results_file] on whatever [load_config] returned: the
    existence of the results file is checked before the first
    [config.get], which raises [AttributeError] on anything but a
    mapping. *)
Definition score_loaded (config : json_value) (results_file : str)
    : M Judge.event Judge.output :=
  match config with
  | YMap d => Judge.score_results_file w psum d results_file
  | _ =>
      if negb (Judge.exists_file w results_file) then raise FileNotFoundError
      else raise AttributeError
  end.

(** [main] on [sys.argv]; the configuration is loaded outside the
    [try].  [interrupt] is the interrupt of the user while
    [score_results_file] runs, if there is one: [Some k] stands for a
    [KeyboardInterrupt] that is raised when [k] events of the run have
    begun.  It is no [Exception], so it passes the handlers of the
    judge clients; [main] catches it and exits with status 130.  An
    interrupt at another time is outside the model, as it is for
    [run-test-suite.py], which has no handler for it. *)
Definition main (argv : list str) (interrupt : option nat)
    : list Judge.event -> outcome * list Judge.event :=
  fun tr =>
    match argv with
    | _ :: results_file :: _ =>
        match load_config with
        | Raise e => (Uncaught e, tr)
        | Ok config =>
            let (res, tr') := score_loaded config results_file tr in
            let finished :=
              match res with
              | Ok _ => (Returned, tr')
              | Raise _ => (Exit 1, tr')
              end in
            match interrupt with
            | Some k =>
                if (k <=? length tr' - length tr)%nat
                then (Exit 130, take (length tr + k) tr')
                else finished
            | None => finished
            end
        end
    | _ => (Exit 1, tr)
    end.

End WithWorld.

End ScoreMain.

Module SuiteMain.

Section WithWorld.
Variable w : Suite.world.
Variable format_filename : document -> document -> str -> result str.

(** [main] on [sys.argv]: without an argument the usage and the
    available suites are printed and the process exits with status 1;
    an exception of the run is printed and raised again, so that the
    [sys.exit(1)] which follows is not reached.  There is no handler
    for an interrupt. *)
Definition main (argv : list str) : list Suite.event -> outcome * list Suite.event :=
  fun tr =>
    match argv with
    | _ :: test_suite :: _ =>
        match Suite.run_test_suite w format_filename test_suite tr with
        | (Ok _, tr') => (Returned, tr')
        | (Raise e, tr') => (Uncaught e, tr')
        end
    | _ => (Exit 1, tr)
    end.

End WithWorld.

End SuiteMain.

(** ** Observations on traces and texts *)

Module Obs.

(** A call of the Messages API, as opposed to the chat completions. *)
Definition is_messages (c : Judge.call) : bool :=
  match c with
  | Judge.MessagesStream _ _ | Judge.MessagesCreate _ _ => true
  | Judge.ChatCompletions _ _ => false
  end.

Definition is_write_scores (e : Judge.event) : bool :=
  match e with Judge.WriteScores _ _ => true | _ => false end.

Definition is_write_text (e : Suite.event) : bool :=
  match e with Suite.WriteText _ _ => true | _ => false end.

Definition is_write_manifest (e : Suite.event) : bool :=
  match e with Suite.WriteManifest _ _ => true | _ => false end.

(** What a judge call of a scoring run must carry: the configured
    model, the evaluation prompt and the text of the results file, sent
    to the API family of the configuration. *)
Definition judge_call_ok (w : Judge.world) (config : gmap str json_value)
    (results_file : str) (c : Judge.call) : Prop :=
  Judge.read_file w results_file
    = Ok (Judge.ja_content (Judge.call_args c))
  /\ Judge.ja_model (Judge.call_args c) = get_none config "model"
  /\ Judge.ja_prompt (Judge.call_args c) = Judge.EVALUATION_PROMPT
  /\ is_messages c = is_str (get_none config "api") "anthropic".

(** The setup errors of a scoring run: no results file, a file that
    cannot be read, a client that cannot be created, a repetition count
    that is no integer. *)
Definition scoring_setup_error (w : Judge.world) (config : gmap str json_value)
    (results_file : str)
    : Prop :=
  Judge.exists_file w results_file = false
  \/ (exists e, Judge.read_file w results_file = Raise e)
  \/ (exists e, Judge.create_client w config = Raise e)
  \/ (exists e, range (get config "repetitions" (YInt 3)) = Raise e).

(** The first and the last character of a text. *)
Definition first_char (s : str) : option char := head s.
Definition last_char (s : str) : option char := last s.

(** The name under which a model is listed. *)
Definition listed_name (model : document) : document :=
  match model with
  | YMap d => get d "name" (YStr (u "unknown"))
  | _ => YNull
  end.

(** The file of a transcript that is written. *)
Definition written_file (e : Suite.event) : option Suite.path :=
  match e with
  | Suite.WriteText p _ => Some p
  | _ => None
  end.

(** A request built from a model configuration and a prompt
    configuration, both mappings: the model name, the system message
    and the temperature are read from them. *)
Definition configured (model_config prompt_config : document) (rq : Suite.request)
    : Prop :=
  exists mc pc,
    model_config = YMap mc
    /\ prompt_config = YMap pc
    /\ Suite.rq_model rq = get mc "name" (YStr (u "gpt-3.5-turbo"))
    /\ Suite.rq_system rq
       = get pc "system_message" (YStr (u "You are a helpful assistant."))
    /\ Suite.rq_temperature rq = get mc "temperature" (YFloat 0).

End Obs.
Import Obs.

(** * Properties *)

(** ** The pattern matcher *)

Section Matcher.

Lemma many_greedy_sound {R} k (cont : str -> str -> option R) rest :
  forall taken r,
    many_greedy k cont taken rest = Some r ->
    exists run rest',
      rest = run ++ rest'
      /\ Forall (fun c => cset_mem k c = true) run
      /\ cont (taken ++ run) rest' = Some r.
Proof.
  induction rest as [|c rest IH]; intros taken r H; simpl in H.
  - exists [], []. rewrite (app_nil_r taken). repeat split; auto.
  - destruct (cset_mem k c) eqn:Hc.
    + destruct (many_greedy k cont (taken ++ [c]) rest) as [r'|] eqn:Hin.
      * injection H as <-.
        destruct (IH _ _ Hin) as (run & rest' & -> & Hrun & Hk).
        exists (c :: run), rest'. split; [reflexivity|]. split.
        { constructor; assumption. }
        rewrite <- app_assoc in Hk. exact Hk.
      * exists [], (c :: rest). rewrite (app_nil_r taken). repeat split; auto.
    + exists [], (c :: rest). rewrite (app_nil_r taken). repeat split; auto.
Qed.

Lemma many_greedy_complete {R} k (cont : str -> str -> option R) run :
  forall taken rest r,
    Forall (fun c => cset_mem k c = true) run ->
    cont (taken ++ run) rest = Some r ->
    exists r', many_greedy k cont taken (run ++ rest) = Some r'.
Proof.
  induction run as [|c run IH]; intros taken rest r Hrun Hk.
  - rewrite app_nil_r in Hk. simpl.
    destruct rest as [|c rest]; simpl; [eauto|].
    destruct (cset_mem k c); [|eauto].
    destruct (many_greedy k cont (taken ++ [c]) rest); eauto.
  - inversion Hrun as [|? ? Hc Hrun']; subst. simpl. rewrite Hc.
    destruct (IH (taken ++ [c]) rest r Hrun') as [r' Hr'].
    { rewrite <- app_assoc. exact Hk. }
    rewrite Hr'. eauto.
Qed.

Lemma many_greedy_longest {R} k (cont : str -> str -> option R) run :
  forall taken rest r,
    Forall (fun c => cset_mem k c = true) run ->
    stops k rest ->
    cont (taken ++ run) rest = Some r ->
    many_greedy k cont taken (run ++ rest) = Some r.
Proof.
  induction run as [|c run IH]; intros taken rest r Hrun Hstop Hk.
  - rewrite app_nil_r in Hk. simpl.
    destruct rest as [|c rest]; simpl; [exact Hk|].
    simpl in Hstop. rewrite Hstop. exact Hk.
  - inversion Hrun as [|? ? Hc Hrun']; subst. simpl. rewrite Hc.
    rewrite (IH (taken ++ [c]) rest r Hrun' Hstop); [reflexivity|].
    rewrite <- app_assoc. exact Hk.
Qed.

Lemma match_here_sound p :
  forall s gs tl,
    match_here p s = Some (gs, tl) ->
    exists m, s = m ++ tl /\ lang p m gs.
Proof.
  induction p as [|e p IH]; intros s gs tl H; simpl in H.
  - injection H as <- <-. exists []. simpl. auto.
  - destruct s as [|c s]; [discriminate|].
    destruct (cset_mem (cls e) c) eqn:Hc; [|discriminate].
    destruct (rep e) eqn:Hrep.
    + destruct (match_here p s) as [[gs' tl']|] eqn:Hp; [|discriminate].
      injection H as <- <-.
      destruct (IH _ _ _ Hp) as (m & -> & Hm).
      exists (c :: m). split; [reflexivity|].
      simpl. exists [c], m, gs'. repeat split; auto; discriminate.
    + apply many_greedy_sound in H as (run & rest' & -> & Hrun & Hk).
      destruct (match_here p rest') as [[gs' tl']|] eqn:Hp; [|discriminate].
      injection Hk as <- <-.
      destruct (IH _ _ _ Hp) as (m & -> & Hm).
      exists (c :: run ++ m). split.
      { simpl. rewrite <- app_assoc. reflexivity. }
      simpl. exists (c :: run), m, gs'. repeat split; auto; try discriminate.
      rewrite Hrep. discriminate.
Qed.

Lemma match_here_complete p :
  forall m gs rest,
    lang p m gs ->
    exists gs' tl, match_here p (m ++ rest) = Some (gs', tl).
Proof.
  induction p as [|e p IH]; intros m gs rest H; simpl in H.
  - destruct H as [-> ->]. simpl. eauto.
  - destruct H as (piece & m' & gs' & -> & (Hne & Hall & Hone) & Hm' & _).
    destruct piece as [|c piece]; [congruence|].
    inversion Hall as [|? ? Hc Hall']; subst.
    destruct (IH _ _ rest Hm') as (gs1 & tl1 & H1).
    simpl. rewrite Hc. destruct (rep e) eqn:Hrep.
    + specialize (Hone eq_refl). destruct piece; [|discriminate].
      simpl. rewrite H1. eauto.
    + rewrite <- app_assoc.
      match goal with
      | |- context [many_greedy ?k ?cont _ _] =>
          destruct (many_greedy_complete k cont piece [c] (m' ++ rest)
                      (if capture e then (c :: piece) :: gs1 else gs1, tl1) Hall')
            as [[gs2 tl2] H2]
      end.
      { simpl. rewrite H1. reflexivity. }
      rewrite H2. eauto.
Qed.

Lemma match_here_tight p :
  forall pieces rest,
    tight p pieces rest ->
    match_here p (concat pieces ++ rest) = Some (captured p pieces, rest).
Proof.
  induction p as [|e p IH]; intros [|x xs] rest H; simpl in H; try contradiction.
  - reflexivity.
  - destruct H as ((Hne & Hall & Hone) & Hstop & Ht).
    destruct x as [|c x]; [congruence|].
    inversion Hall as [|? ? Hc Hall']; subst.
    specialize (IH _ _ Ht).
    simpl. rewrite Hc. destruct (rep e) eqn:Hrep.
    + specialize (Hone eq_refl). destruct x; [|discriminate].
      simpl. rewrite IH. reflexivity.
    + rewrite <- app_assoc.
      apply many_greedy_longest; auto.
      simpl. rewrite IH. reflexivity.
Qed.

Lemma search_from_none p s :
  forall i,
    search_from p i s = None <->
    (forall pre sfx, s = pre ++ sfx -> match_here p sfx = None).
Proof.
  induction s as [|c s IH]; intros i; simpl.
  - destruct (match_here p []) as [[gs tl]|] eqn:H.
    + split; [discriminate|]. intros Hn. specialize (Hn [] [] eq_refl). congruence.
    + split; [|reflexivity]. intros _ pre sfx E.
      symmetry in E. apply app_eq_nil in E as [-> ->]. exact H.
  - destruct (match_here p (c :: s)) as [[gs tl]|] eqn:H.
    + split; [discriminate|]. intros Hn. specialize (Hn [] _ eq_refl). congruence.
    + rewrite IH. split.
      * intros Hn [|c' pre] sfx E; simpl in E.
        { subst sfx. exact H. }
        injection E as -> ->. eapply Hn. reflexivity.
      * intros Hn pre sfx ->. apply (Hn (c :: pre)). reflexivity.
Qed.

Lemma search_from_some p s :
  forall i k gs,
    search_from p i s = Some (k, gs) ->
    exists pre sfx tl,
      s = pre ++ sfx /\ k = (i + length pre)%nat
      /\ match_here p sfx = Some (gs, tl)
      /\ (forall pre' sfx', s = pre' ++ sfx' -> (length pre' < length pre)%nat ->
          match_here p sfx' = None).
Proof.
  induction s as [|c s IH]; intros i k gs H; simpl in H.
  - destruct (match_here p []) as [[gs' tl]|] eqn:Hm; [|discriminate].
    injection H as <- <-. exists [], [], tl. simpl.
    repeat split; auto; try lia.
  - destruct (match_here p (c :: s)) as [[gs' tl]|] eqn:Hm.
    + injection H as <- <-. exists [], (c :: s), tl. simpl.
      repeat split; auto; try lia.
    + destruct (IH _ _ _ H) as (pre & sfx & tl & -> & -> & Hs & Hearlier).
      exists (c :: pre), sfx, tl. simpl. repeat split; auto; try lia.
      intros [|c' pre'] sfx' E Hl; simpl in E.
      * subst sfx'. exact Hm.
      * injection E as -> E. eapply Hearlier; [exact E|]. simpl in Hl. lia.
Qed.

Lemma search_from_first p pre :
  forall i sfx gs tl,
    (forall pre' sfx', pre ++ sfx = pre' ++ sfx' -> (length pre' < length pre)%nat ->
       match_here p sfx' = None) ->
    match_here p sfx = Some (gs, tl) ->
    search_from p i (pre ++ sfx) = Some ((i + length pre)%nat, gs).
Proof.
  induction pre as [|c pre IH]; intros i sfx gs tl Hearlier Hm.
  - simpl. destruct sfx; simpl in *; rewrite Hm; f_equal; f_equal; lia.
  - simpl. rewrite (Hearlier [] (c :: pre ++ sfx) eq_refl); [|simpl; lia].
    rewrite (IH (S i) sfx gs tl); [f_equal; f_equal; lia| |exact Hm].
    intros pre' sfx' E Hl. apply (Hearlier (c :: pre') sfx').
    + simpl. rewrite E. reflexivity.
    + simpl. lia.
Qed.

(** [search] finds nothing exactly when the pattern occurs nowhere. *)
Lemma search_none_iff p s : search p s = None <-> ~ occurs p s.
Proof.
  unfold search. rewrite search_from_none. split.
  - intros Hn (i & gs & pre & m & post & -> & _ & Hl).
    destruct (match_here_complete p m gs post Hl) as (gs' & tl & Hm).
    rewrite (Hn pre (m ++ post) eq_refl) in Hm. discriminate.
  - intros Hno pre sfx ->.
    destruct (match_here p sfx) as [[gs tl]|] eqn:Hm; [|reflexivity].
    exfalso. apply Hno.
    destruct (match_here_sound _ _ _ _ Hm) as (m & -> & Hl).
    exists (length pre), gs, pre, m, tl. auto.
Qed.

(** What [search] finds is an occurrence, and none starts before it. *)
Lemma search_some p s i gs :
  search p s = Some (i, gs) ->
  occurs_at p s i gs /\ (forall j gs', occurs_at p s j gs' -> (i <= j)%nat).
Proof.
  intros H. apply search_from_some in H as (pre & sfx & tl & -> & -> & Hm & Hearlier).
  split.
  - destruct (match_here_sound _ _ _ _ Hm) as (m & -> & Hl).
    exists pre, m, tl. auto.
  - intros j gs' (pre' & m' & post' & E & <- & Hl).
    destruct (Nat.le_gt_cases (length pre) (length pre')) as [|Hlt]; [simpl; lia|].
    destruct (match_here_complete p m' gs' post' Hl) as (gs2 & tl2 & Hm2).
    rewrite (Hearlier pre' (m' ++ post') E Hlt) in Hm2. discriminate.
Qed.

End Matcher.

(** ** Characters and the score phrase *)

Section ScorePhrase.

Lemma space_not_decimal c : is_space c = true -> is_decimal c = false.
Proof.
  unfold is_space. rewrite existsb_exists. intros (x & Hin & Hx).
  apply N.eqb_eq in Hx. subst x.
  unfold whitespace in Hin. simpl in Hin.
  repeat (destruct Hin as [<-|Hin]; [vm_compute; reflexivity|]).
  contradiction.
Qed.

Lemma decimal_not_space c : is_decimal c = true -> is_space c = false.
Proof.
  intros Hd. destruct (is_space c) eqn:Hs; [|reflexivity].
  apply space_not_decimal in Hs. congruence.
Qed.

Lemma stops_digit_blanks b rest : blanks b -> stops Digit (b ++ rest).
Proof.
  intros [Hne Hall]. destruct b as [|c b]; [congruence|].
  inversion Hall; subst. simpl. apply space_not_decimal. assumption.
Qed.

Lemma stops_space_digits d rest : digits d -> stops Space (d ++ rest).
Proof.
  intros [Hne Hall]. destruct d as [|c d]; [congruence|].
  inversion Hall; subst. simpl. apply decimal_not_space. assumption.
Qed.

Lemma piece_once_lit b a piece :
  piece_ok (Elem b Once (Lit a)) piece -> piece = [a].
Proof.
  intros (Hne & Hall & Hone). specialize (Hone eq_refl).
  destruct piece as [|c [|c' piece]]; try discriminate.
  inversion Hall as [|? ? Hc _]; subst. simpl in Hc.
  apply N.eqb_eq in Hc. subst. reflexivity.
Qed.

Lemma piece_many_digit b piece :
  piece_ok (Elem b OneOrMore Digit) piece <-> digits piece.
Proof.
  unfold piece_ok, digits. simpl. split.
  - intros (? & ? & _). auto.
  - intros (? & ?). repeat split; auto. discriminate.
Qed.

Lemma piece_many_space b piece :
  piece_ok (Elem b OneOrMore Space) piece <-> blanks piece.
Proof.
  unfold piece_ok, blanks. simpl. split.
  - intros (? & ? & _). auto.
  - intros (? & ?). repeat split; auto. discriminate.
Qed.

Lemma piece_lit b a : piece_ok (Elem b Once (Lit a)) [a].
Proof.
  repeat split; try discriminate.
  constructor; [|constructor]. simpl. apply N.eqb_refl.
Qed.

Lemma u_out : u "out" = [111; 117; 116]%N.
Proof. reflexivity. Qed.

Lemma u_of : u "of" = [111; 102]%N.
Proof. reflexivity. Qed.

Lemma score_pattern_elems :
  score_pattern =
    [Elem true OneOrMore Digit; Elem false OneOrMore Space;
     Elem false Once (Lit 111%N); Elem false Once (Lit 117%N);
     Elem false Once (Lit 116%N); Elem false OneOrMore Space;
     Elem false Once (Lit 111%N); Elem false Once (Lit 102%N);
     Elem false OneOrMore Space; Elem true OneOrMore Digit].
Proof. reflexivity. Qed.

(** The compiled pattern denotes the score phrase. *)
Lemma lang_score_phrase m gs :
  lang score_pattern m gs -> exists d1 d2, gs = [d1; d2] /\ score_phrase d1 d2 m.
Proof.
  rewrite score_pattern_elems. simpl.
  intros (d1 & ? & ? & -> & Hd1 & H & ->).
  destruct H as (b1 & ? & ? & -> & Hb1 & H & ->).
  destruct H as (o1 & ? & ? & -> & Ho1 & H & ->).
  destruct H as (u1 & ? & ? & -> & Hu1 & H & ->).
  destruct H as (t1 & ? & ? & -> & Ht1 & H & ->).
  destruct H as (b2 & ? & ? & -> & Hb2 & H & ->).
  destruct H as (o2 & ? & ? & -> & Ho2 & H & ->).
  destruct H as (f2 & ? & ? & -> & Hf2 & H & ->).
  destruct H as (b3 & ? & ? & -> & Hb3 & H & ->).
  destruct H as (d2 & ? & ? & -> & Hd2 & [-> ->] & ->).
  apply piece_once_lit in Ho1, Hu1, Ht1, Ho2, Hf2. subst.
  apply piece_many_digit in Hd1, Hd2. apply piece_many_space in Hb1, Hb2, Hb3.
  exists d1, d2. split; [reflexivity|].
  exists b1, b2, b3. rewrite u_out, u_of, app_nil_r.
  repeat (split; [assumption|]). reflexivity.
Qed.

(** On a score phrase whose second integer is not continued, the
    matcher returns the two integers. *)
Lemma match_here_score_phrase d1 d2 m post :
  score_phrase d1 d2 m ->
  starts_with_digit post = false ->
  match_here score_pattern (m ++ post) = Some ([d1; d2], post).
Proof.
  intros (b1 & b2 & b3 & Hd1 & Hb1 & Hb2 & Hb3 & Hd2 & ->) Hpost.
  pose (pieces := [d1; b1; [111%N]; [117%N]; [116%N]; b2; [111%N]; [102%N]; b3; d2]).
  replace ((d1 ++ b1 ++ u "out" ++ b2 ++ u "of" ++ b3 ++ d2) ++ post)
    with (concat pieces ++ post).
  2:{ subst pieces. rewrite u_out, u_of. simpl. rewrite app_nil_r. reflexivity. }
  rewrite (match_here_tight score_pattern pieces post); [reflexivity|].
  subst pieces. rewrite score_pattern_elems. simpl.
  repeat match goal with
         | |- _ /\ _ => split
         | |- piece_ok (Elem _ OneOrMore Digit) _ => apply piece_many_digit; assumption
         | |- piece_ok (Elem _ OneOrMore Space) _ => apply piece_many_space; assumption
         | |- piece_ok (Elem _ Once (Lit _)) _ => apply piece_lit
         | |- True => exact I
         | |- Once = OneOrMore -> _ => discriminate
         | |- OneOrMore = OneOrMore -> _ => intros _
         end.
  - rewrite <- app_assoc. apply stops_digit_blanks. assumption.
  - reflexivity.
  - reflexivity.
  - rewrite <- app_assoc. apply stops_space_digits. assumption.
  - destruct post; simpl in *; auto.
Qed.

(** [search] on a text whose first score phrase is known. *)
Lemma search_score_first s pre d1 d2 m post :
  s = pre ++ m ++ post ->
  score_phrase d1 d2 m ->
  starts_with_digit post = false ->
  (forall pre' d1' d2' m' post',
      s = pre' ++ m' ++ post' -> score_phrase d1' d2' m' ->
      (length pre <= length pre')%nat) ->
  search score_pattern s = Some (length pre, [d1; d2]).
Proof.
  intros -> Hm Hpost Hfirst. unfold search.
  rewrite (search_from_first score_pattern pre 0 (m ++ post) [d1; d2] post).
  - reflexivity.
  - intros pre' sfx' E Hlt.
    destruct (match_here score_pattern sfx') as [[gs tl]|] eqn:Hh; [|reflexivity].
    exfalso.
    destruct (match_here_sound _ _ _ _ Hh) as (m' & -> & Hl).
    destruct (lang_score_phrase _ _ Hl) as (d1' & d2' & _ & Hp).
    specialize (Hfirst pre' d1' d2' m' tl E Hp). lia.
  - apply match_here_score_phrase; assumption.
Qed.

(** [search] fails exactly on the texts without a score phrase. *)
Lemma search_score_none s :
  (forall pre d1 d2 m post, s = pre ++ m ++ post -> ~ score_phrase d1 d2 m) ->
  search score_pattern s = None.
Proof.
  intros Hno. apply search_none_iff.
  intros (i & gs & pre & m & post & E & _ & Hl).
  destruct (lang_score_phrase _ _ Hl) as (d1 & d2 & _ & Hp).
  exact (Hno pre d1 d2 m post E Hp).
Qed.

End ScorePhrase.

(** ** [parse_score] *)

Section ParseScore.

Lemma score_phrase_lang d1 d2 m : score_phrase d1 d2 m -> lang score_pattern m [d1; d2].
Proof.
  intros (b1 & b2 & b3 & Hd1 & Hb1 & Hb2 & Hb3 & Hd2 & ->).
  rewrite score_pattern_elems, u_out, u_of. simpl.
  exists d1; do 2 eexists; split; [reflexivity|]; split; [apply piece_many_digit; assumption|]; split; [|reflexivity].
  exists b1; do 2 eexists; split; [reflexivity|]; split; [apply piece_many_space; assumption|]; split; [|reflexivity].
  exists [111%N]; do 2 eexists; split; [reflexivity|]; split; [apply piece_lit|]; split; [|reflexivity].
  exists [117%N]; do 2 eexists; split; [reflexivity|]; split; [apply piece_lit|]; split; [|reflexivity].
  exists [116%N]; do 2 eexists; split; [reflexivity|]; split; [apply piece_lit|]; split; [|reflexivity].
  exists b2; do 2 eexists; split; [reflexivity|]; split; [apply piece_many_space; assumption|]; split; [|reflexivity].
  exists [111%N]; do 2 eexists; split; [reflexivity|]; split; [apply piece_lit|]; split; [|reflexivity].
  exists [102%N]; do 2 eexists; split; [reflexivity|]; split; [apply piece_lit|]; split; [|reflexivity].
  exists b3; do 2 eexists; split; [reflexivity|]; split; [apply piece_many_space; assumption|]; split; [|reflexivity].
  exists d2, [], []; split; [rewrite app_nil_r; reflexivity|]; split; [apply piece_many_digit; assumption|]; split; [|reflexivity].
  split; reflexivity.
Qed.

(** When [search] finds nothing, the text holds no score phrase. *)
Lemma no_phrase_of_search s :
  search score_pattern s = None ->
  forall pre d1 d2 m post, s = pre ++ m ++ post -> ~ score_phrase d1 d2 m.
Proof.
  intros Hs pre d1 d2 m post E Hp. apply search_none_iff in Hs. apply Hs.
  exists (length pre), [d1; d2], pre, m, post.
  repeat split; auto. apply score_phrase_lang. exact Hp.
Qed.

Lemma digits_value_from_nonneg ds : forall acc, 0 <= acc ->
  0 <= fold_left (fun acc c => 10 * acc + default 0 (decimal_value c)) ds acc.
Proof.
  induction ds as [|c ds IH]; intros acc Hacc; simpl; [exact Hacc|].
  apply IH. unfold decimal_value.
  destruct (List.find (in_block c) decimal_blocks) as [b|]; unfold default, from_option, id.
  - pose proof (N2Z.is_nonneg ((c - fst b) mod 10)). lia.
  - lia.
Qed.

Lemma digits_value_nonneg ds : 0 <= digits_value ds.
Proof. apply digits_value_from_nonneg. lia. Qed.

Lemma py_int_digits d :
  digits d -> (length d <= int_max_str_digits)%nat -> py_int d = Ok (digits_value d).
Proof.
  intros [Hne Hall] Hlen. unfold py_int.
  assert (forallb is_decimal d = true) as ->.
  { apply forallb_forall. intros c Hc. rewrite Forall_forall in Hall.
    apply Hall. apply list_elem_of_In. exact Hc. }
  assert ((int_max_str_digits <? length d)%nat = false) as ->
    by (apply Nat.ltb_ge; exact Hlen).
  destruct d as [|c d]; [congruence|]. reflexivity.
Qed.

(** C1, as amended.  When the first score phrase of the text (digits,
    whitespace, [out], whitespace, [of], whitespace, digits, in lower
    case) has the integers [d1] and [d2], neither longer than the
    interpreter's limit, and the percentage of [d1] in [d2] is
    representable, [parse_score] returns correct = [d1], total = [d2]
    and that percentage: the quotient times 100, 0 for a zero total,
    rounded to two decimals. *)
Theorem parse_score_first_phrase (s pre d1 d2 m post : str) (p : pynum) :
  s = pre ++ m ++ post ->
  score_phrase d1 d2 m ->
  starts_with_digit post = false ->
  (forall pre' d1' d2' m' post',
      s = pre' ++ m' ++ post' -> score_phrase d1' d2' m' ->
      (length pre <= length pre')%nat) ->
  (length d1 <= int_max_str_digits)%nat ->
  (length d2 <= int_max_str_digits)%nat ->
  percent (digits_value d1) (digits_value d2) = Ok p ->
  parse_score s =
    Ok {| correct := Some (digits_value d1);
          total := Some (digits_value d2);
          percentage := Some p;
          raw_output := strip s;
          parse_error := None |}.
Proof.
  intros Hs Hm Hpost Hfirst Hl1 Hl2 Hp.
  unfold parse_score.
  rewrite (search_score_first s pre d1 d2 m post Hs Hm Hpost Hfirst).
  destruct Hm as (b1 & b2 & b3 & Hd1 & _ & _ & _ & Hd2 & _).
  simpl. rewrite (py_int_digits d1 Hd1 Hl1). simpl.
  rewrite (py_int_digits d2 Hd2 Hl2). simpl.
  unfold percent in Hp.
  pose proof (digits_value_nonneg d2) as Hnn.
  destruct (Z.eqb_spec (digits_value d2) 0) as [E|E].
  - rewrite E. simpl. injection Hp as <-. reflexivity.
  - assert ((0 <? digits_value d2) = true) as -> by (apply Z.ltb_lt; lia).
    destruct (int_true_div (digits_value d1) (digits_value d2)) as [q|e]; simpl in *.
    + injection Hp as <-. reflexivity.
    + discriminate.
Qed.

(** The example of the evaluation prompt, through the theorem. *)
Lemma parse_score_first_phrase_witness :
  let s := u "58 out of 100 answers are correct." in
  s = [] ++ u "58 out of 100" ++ u " answers are correct."
  /\ score_phrase (u "58") (u "100") (u "58 out of 100")
  /\ starts_with_digit (u " answers are correct.") = false
  /\ (length (u "58") <= int_max_str_digits)%nat
  /\ (length (u "100") <= int_max_str_digits)%nat
  /\ percent (digits_value (u "58")) (digits_value (u "100")) = Ok (PFloat 58)
  /\ parse_score s =
       Ok {| correct := Some 58;
             total := Some 100;
             percentage := Some (PFloat 58);
             raw_output := s;
             parse_error := None |}.
Proof.
  assert (score_phrase (u "58") (u "100") (u "58 out of 100")) as Hm.
  { exists [32%N], [32%N], [32%N].
    repeat split; try discriminate; repeat constructor. }
  intros s.
  split; [reflexivity|]. split; [exact Hm|]. split; [reflexivity|].
  split; [vm_compute; lia|]. split; [vm_compute; lia|].
  split; [vm_compute; reflexivity|].
  apply (parse_score_first_phrase s [] (u "58") (u "100") (u "58 out of 100")
           (u " answers are correct.") (PFloat 58)).
  - reflexivity.
  - exact Hm.
  - reflexivity.
  - intros. simpl. lia.
  - vm_compute. lia.
  - vm_compute. lia.
  - vm_compute. reflexivity.
Defined.

(** The second example of the specification. *)
Example parse_score_87_of_116 :
  parse_score (u "87 out of 116") =
    Ok {| correct := Some 87;
          total := Some 116;
          percentage := Some (PFloat 75);
          raw_output := u "87 out of 116";
          parse_error := None |}.
Proof. vm_compute. reflexivity. Qed.

(** C1 as stated fails: the phrase in capitals is an occurrence of the
    pattern read case-insensitively, yet nothing is parsed; a quotient
    beyond the floats makes the division raise; and a text that
    contains [58 out of 100] inside longer integers yields those. *)
Lemma parse_score_claimed_counterexample :
  (occurs_at claimed_pattern (u "58 OUT OF 100") 0 [u "58"; u "100"]
   /\ parse_score (u "58 OUT OF 100") =
        Ok {| correct := None;
              total := None;
              percentage := None;
              raw_output := u "58 OUT OF 100";
              parse_error := Some (u "Could not parse score from output") |})
  /\ (occurs_at claimed_pattern (u "1" ++ repeat 48%N 400 ++ u " out of 1") 0
        [u "1" ++ repeat 48%N 400; u "1"]
      /\ parse_score (u "1" ++ repeat 48%N 400 ++ u " out of 1") = Raise OverflowError)
  /\ (u "158 out of 1000" = u "1" ++ u "58 out of 100" ++ u "0"
      /\ parse_score (u "158 out of 1000") =
           Ok {| correct := Some 158;
                 total := Some 1000;
                 percentage := Some (PFloat 15.8);
                 raw_output := u "158 out of 1000";
                 parse_error := None |}).
Proof.
  split; [|split]; split.
  - apply (search_some claimed_pattern). vm_compute. reflexivity.
  - vm_compute. reflexivity.
  - apply (search_some claimed_pattern). vm_compute. reflexivity.
  - vm_compute. reflexivity.
  - reflexivity.
  - vm_compute. reflexivity.
Qed.

(** C2, as amended.  On a text without a score phrase all numeric
    fields are null, the error flag is set, and the raw output is the
    text without its leading and trailing whitespace. *)
Theorem parse_score_no_phrase (s : str) :
  (forall pre d1 d2 m post, s = pre ++ m ++ post -> ~ score_phrase d1 d2 m) ->
  parse_score s =
    Ok {| correct := None;
          total := None;
          percentage := None;
          raw_output := strip s;
          parse_error := Some (u "Could not parse score from output") |}.
Proof.
  intros Hno. unfold parse_score. rewrite (search_score_none s Hno). reflexivity.
Qed.

Lemma parse_score_no_phrase_witness :
  let s := u "I counted 58 correct answers." in
  (forall pre d1 d2 m post, s = pre ++ m ++ post -> ~ score_phrase d1 d2 m)
  /\ parse_score s =
       Ok {| correct := None;
             total := None;
             percentage := None;
             raw_output := s;
             parse_error := Some (u "Could not parse score from output") |}.
Proof.
  intros s.
  assert (forall pre d1 d2 m post, s = pre ++ m ++ post -> ~ score_phrase d1 d2 m) as Hno.
  { apply no_phrase_of_search. vm_compute. reflexivity. }
  split; [exact Hno|].
  exact (parse_score_no_phrase s Hno).
Defined.

(** C2 as stated fails: the text holds no integer at all, and the raw
    output is not the text verbatim. *)
Lemma parse_score_verbatim_counterexample :
  let s := u "  The answers could not be graded.  " in
  Forall (fun c => is_decimal c = false) s
  /\ ~ occurs claimed_pattern s
  /\ parse_score s =
       Ok {| correct := None;
             total := None;
             percentage := None;
             raw_output := u "The answers could not be graded.";
             parse_error := Some (u "Could not parse score from output") |}
  /\ u "The answers could not be graded." <> s.
Proof.
  intros s. split; [|split; [|split]].
  - assert (forallb (fun c => negb (is_decimal c)) s = true) as Hall
      by (vm_compute; reflexivity).
    rewrite forallb_forall in Hall.
    apply Forall_forall. intros c Hc. apply list_elem_of_In in Hc.
    apply Hall in Hc. destruct (is_decimal c); [discriminate|reflexivity].
  - apply search_none_iff. vm_compute. reflexivity.
  - vm_compute. reflexivity.
  - discriminate.
Qed.

End ParseScore.

(** ** When the arithmetic returns *)

Section Returns.

Lemma overflow_threshold_large : 2 ^ 1023 < overflow_threshold.
Proof. reflexivity. Qed.

Lemma int_true_div_returns a b :
  b <> 0 -> Z.abs a < 2 ^ 1023 -> exists q, int_true_div a b = Ok q.
Proof.
  intros Hb Ha. unfold int_true_div.
  destruct (Z.eqb_spec b 0) as [|_]; [contradiction|].
  pose proof overflow_threshold_large as HT.
  destruct (Z.leb_spec (Z.abs b * overflow_threshold) (Z.abs a)) as [Hle|_]; [|eauto].
  exfalso. revert HT Ha Hle.
  generalize overflow_threshold (2 ^ 1023). intros T P HT Ha Hle. nia.
Qed.

Lemma float_of_int_returns z :
  Z.abs z < 2 ^ 1023 -> exists f, float_of_int z = Ok f.
Proof.
  intros Hz. unfold float_of_int.
  pose proof overflow_threshold_large as HT.
  destruct (Z.leb_spec overflow_threshold (Z.abs z)) as [Hle|_]; [|eauto].
  exfalso. revert HT Hz Hle.
  generalize overflow_threshold (2 ^ 1023). intros T P HT Hz Hle. lia.
Qed.

(** The percentage of a score is defined whenever the number of correct
    answers is below [2^1023]. *)
Lemma percent_returns c t :
  0 <= c < 2 ^ 1023 -> exists p, percent c t = Ok p.
Proof.
  intros Hc. unfold percent. destruct (Z.eqb_spec t 0) as [|Ht]; [eauto|].
  destruct (int_true_div_returns c t Ht) as [q ->]; [|simpl; eauto].
  rewrite Z.abs_eq; lia.
Qed.

Lemma py_int_value g c : py_int g = Ok c -> c = digits_value g.
Proof.
  unfold py_int. destruct (_ && _); [|discriminate].
  destruct (_ <? _)%nat; [discriminate|]. congruence.
Qed.

(** The shape of what [parse_score] returns. *)
Lemma parse_score_shape text r :
  parse_score text = Ok r ->
  (correct r = None /\ percentage r = None)
  \/ (exists c p, correct r = Some c /\ 0 <= c /\ percentage r = Some p /\ plain p).
Proof.
  unfold parse_score. destruct (search score_pattern text) as [[i gs]|].
  - destruct (gs !! 0%nat) as [g1|]; [|discriminate]. cbn [rbind].
    destruct (py_int g1) as [c|] eqn:E1; [|discriminate]. cbn [rbind].
    destruct (gs !! 1%nat) as [g2|]; [|discriminate]. cbn [rbind].
    destruct (py_int g2) as [t|]; [|discriminate]. cbn [rbind].
    apply py_int_value in E1. pose proof (digits_value_nonneg g1).
    destruct (0 <? t).
    + destruct (int_true_div c t) as [q|]; [|discriminate]. cbn [rbind].
      intros [= <-]. right. exists c, (PFloat (float_round2 (q * 100)%float)).
      repeat split; try lia. right. eauto.
    + cbn [rbind]. intros [= <-]. right. exists c, (PInt 0).
      repeat split; try lia. left. reflexivity.
  - intros [= <-]. left. auto.
Qed.

Lemma sum_from_plain l : forall acc,
  plain acc -> Forall plain l -> exists s, sum_from acc l = Ok s /\ plain s.
Proof.
  induction l as [|x l IH]; intros acc Hacc Hl; simpl; [eauto|].
  inversion Hl as [|? ? Hx Hl']; subst.
  assert (exists y, py_add acc x = Ok y /\ plain y) as (y & -> & Hy).
  { destruct Hacc as [->|[f ->]], Hx as [->|[g ->]]; simpl; eexists; split;
      try reflexivity; unfold plain; eauto. }
  simpl. apply IH; assumption.
Qed.

Lemma sum_int_from_bound B l : forall acc,
  0 <= B -> Forall (fun c => 0 <= c < B) l ->
  acc <= fold_left Z.add l acc <= acc + Z.of_nat (length l) * B.
Proof.
  induction l as [|x l IH]; intros acc HB Hl; simpl; [lia|].
  inversion Hl; subst. specialize (IH (acc + x) HB ltac:(assumption)). nia.
Qed.

End Returns.

(** ** [calculate_statistics] *)

Section StatisticsFacts.

Variable psum : list pynum -> result pynum.

Lemma list_min_spec l : forall x,
  In (list_min x l) (x :: l) /\ Forall (fun c => list_min x l <= c) (x :: l).
Proof.
  unfold list_min. induction l as [|y l IH]; intros x; simpl.
  - split; [auto|]. constructor; [lia|constructor].
  - destruct (IH (Z.min x y)) as [Hin Hall].
    inversion Hall as [|? ? Hxy Hl]; subst. split.
    + destruct Hin as [E|Hin]; [|auto].
      rewrite <- E. destruct (Z.min_spec x y) as [[_ ->]|[_ ->]]; auto.
    + constructor; [lia|]. constructor; [lia|exact Hl].
Qed.

Lemma list_max_spec l : forall x,
  In (list_max x l) (x :: l) /\ Forall (fun c => c <= list_max x l) (x :: l).
Proof.
  unfold list_max. induction l as [|y l IH]; intros x; simpl.
  - split; [auto|]. constructor; [lia|constructor].
  - destruct (IH (Z.max x y)) as [Hin Hall].
    inversion Hall as [|? ? Hxy Hl]; subst. split.
    + destruct Hin as [E|Hin]; [|auto].
      rewrite <- E. destruct (Z.max_spec x y) as [[_ ->]|[_ ->]]; auto.
    + constructor; [lia|]. constructor; [lia|exact Hl].
Qed.

Lemma omap_cons {A B} (f : A -> option B) x l :
  omap f (x :: l) = match f x with Some y => y :: omap f l | None => omap f l end.
Proof. reflexivity. Qed.

Lemma omap_length_le {A B} (f : A -> option B) l :
  (length (omap f l) <= length l)%nat.
Proof.
  induction l as [|x l IH]; [simpl; lia|].
  rewrite omap_cons. destruct (f x); simpl; lia.
Qed.

Lemma omap_length_eq {A B} (f : A -> option B) l :
  length (omap f l) = length l <-> Forall (fun x => f x <> None) l.
Proof.
  induction l as [|x l IH].
  - split; [constructor|reflexivity].
  - pose proof (omap_length_le f l) as Hle. rewrite omap_cons.
    destruct (f x) eqn:E; simpl; split.
    + intros H. constructor; [congruence|]. apply IH. lia.
    + intros H. inversion H; subst. f_equal. apply IH. assumption.
    + intros H. lia.
    + intros H. inversion H; subst. congruence.
Qed.

Lemma omap_correct_has_score runs :
  omap correct (List.filter has_score runs) = omap correct runs.
Proof.
  induction runs as [|r runs IH]; [reflexivity|].
  cbn [List.filter]. unfold has_score at 1. rewrite (omap_cons correct r).
  destruct (correct r) eqn:Ec.
  - rewrite omap_cons, Ec, IH. reflexivity.
  - destruct (percentage r); rewrite ?omap_cons, ?Ec; exact IH.
Qed.

Lemma omap_percentage_has_score runs :
  omap percentage (List.filter has_score runs) = omap percentage runs.
Proof.
  induction runs as [|r runs IH]; [reflexivity|].
  cbn [List.filter]. unfold has_score at 1. rewrite (omap_cons percentage r).
  destruct (correct r) eqn:Ec; destruct (percentage r) eqn:Ep;
    rewrite ?omap_cons, ?Ep, ?IH; reflexivity || exact IH.
Qed.

(** C3.  Whenever [calculate_statistics] returns: with no parsed run
    the four aggregates are null; otherwise [mean_correct] is the mean
    of the parsed [correct] values rounded to two decimals,
    [mean_percentage] is the mean of the parsed [percentage] values,
    over their own number, with the same rounding, and [min_correct]
    and [max_correct] are the least and greatest parsed values.  Runs
    without a score do not count: the aggregates are those of the list
    without them. *)
Theorem calculate_statistics_means (runs : list run) (st : summary) :
  calculate_statistics psum runs = Ok st ->
  (omap correct runs = [] ->
     mean_correct st = None /\ mean_percentage st = None
     /\ min_correct st = None /\ max_correct st = None)
  /\ (omap correct runs <> [] ->
        (exists m, mean_int (omap correct runs) = Ok m
                   /\ mean_correct st = Some (float_round2 m))
        /\ (exists m, mean_num psum (omap percentage runs) = Ok m
                      /\ mean_percentage st = Some (float_round2 m))
        /\ (exists lo hi,
              min_correct st = Some lo /\ max_correct st = Some hi
              /\ In lo (omap correct runs) /\ In hi (omap correct runs)
              /\ Forall (fun c => lo <= c <= hi) (omap correct runs)))
  /\ (exists st',
        calculate_statistics psum (List.filter has_score runs) = Ok st'
        /\ mean_correct st' = mean_correct st
        /\ mean_percentage st' = mean_percentage st
        /\ min_correct st' = min_correct st
        /\ max_correct st' = max_correct st).
Proof.
  intros H. split; [|split].
  - intros E. unfold calculate_statistics in H. rewrite E in H.
    injection H as <-. simpl. auto.
  - intros Hne. unfold calculate_statistics in H.
    unfold mean_int, mean_num.
    destruct (omap correct runs) as [|c cs] eqn:E; [congruence|].
    destruct (int_true_div (sum_int (c :: cs)) (Z.of_nat (length (c :: cs))))
      as [mc|] eqn:Emc; [|discriminate].
    simpl in H.
    destruct (psum (omap percentage runs)) as [sp|]; [|discriminate].
    simpl in H |- *.
    destruct (py_div_len sp (length (omap percentage runs))) as [mp|]; [|discriminate].
    injection H as <-. simpl.
    split; [eauto|]. split; [eauto|].
    destruct (list_min_spec cs c) as [Hmin Hlo], (list_max_spec cs c) as [Hmax Hhi].
    exists (list_min c cs), (list_max c cs). repeat split; auto.
    rewrite Forall_forall in Hlo, Hhi |- *. intros x Hx.
    specialize (Hlo x Hx). specialize (Hhi x Hx). lia.
  - unfold calculate_statistics in *.
    rewrite omap_correct_has_score, omap_percentage_has_score.
    destruct (omap correct runs) as [|c cs].
    + injection H as <-. eexists. split; [reflexivity|]. simpl. auto.
    + destruct (int_true_div _ _) as [mc|]; [|discriminate]. simpl in *.
      destruct (psum _) as [sp|]; [|discriminate]. simpl in *.
      destruct (py_div_len _ _) as [mp|]; [|discriminate].
      injection H as <-. eexists. split; [reflexivity|]. simpl. auto.
Qed.

(** C4, as amended.  Whenever [calculate_statistics] returns,
    [all_runs_parsed] is true if and only if the list is not empty and
    every run in it was parsed. *)
Theorem all_runs_parsed_iff (runs : list run) (st : summary) :
  calculate_statistics psum runs = Ok st ->
  (all_runs_parsed st = true <-> runs <> [] /\ Forall parsed runs).
Proof.
  intros H. unfold calculate_statistics in H.
  destruct (omap correct runs) as [|c cs] eqn:E.
  - injection H as <-. simpl. split; [discriminate|].
    intros [Hne Hall]. exfalso.
    apply (omap_length_eq correct) in Hall. rewrite E in Hall.
    destruct runs; [congruence|discriminate].
  - destruct (int_true_div _ _) as [mc|]; [|discriminate]. cbn [rbind] in H.
    destruct (psum _) as [sp|]; [|discriminate]. cbn [rbind] in H.
    destruct (py_div_len _ _) as [mp|]; [|discriminate]. cbn [rbind] in H.
    assert (all_runs_parsed st = Nat.eqb (length (c :: cs)) (length runs)) as ->
      by (injection H as <-; reflexivity).
    rewrite <- E.
    rewrite Nat.eqb_eq, omap_length_eq. unfold parsed. split.
    + intros Hall. split; [|exact Hall]. intros ->. discriminate.
    + tauto.
Qed.

End StatisticsFacts.

Section StatisticsReturn.

Lemma runs_shape runs :
  Forall (fun r => exists text, parse_score text = Ok r) runs ->
  Forall plain (omap percentage runs)
  /\ Forall (fun c => 0 <= c) (omap correct runs)
  /\ length (omap percentage runs) = length (omap correct runs).
Proof.
  induction runs as [|r runs IH]; intros H.
  - repeat split; constructor.
  - inversion H as [|? ? [text Hr] Hruns]; subst.
    destruct (IH Hruns) as (Hp & Hc & Hlen). rewrite !omap_cons.
    destruct (parse_score_shape text r Hr) as [[-> ->]|(c & p & -> & Hc0 & -> & Hpl)].
    + auto.
    + repeat split; try (constructor; assumption). simpl. congruence.
Qed.

(** On runs returned by [parse_score], fewer than [2^20] of them with
    scores below [2^1000], the statistics are computed: no division
    raises. *)
Lemma calculate_statistics_returns runs :
  Forall (fun r => exists text, parse_score text = Ok r) runs ->
  Forall (fun c => c < 2 ^ 1000) (omap correct runs) ->
  (length runs < 2 ^ 20)%nat ->
  exists st, calculate_statistics sum_left_to_right runs = Ok st.
Proof.
  intros Hruns Hsmall Hlen.
  destruct (runs_shape runs Hruns) as (Hplain & Hpos & Hsame).
  pose proof (omap_length_le correct runs) as Hle.
  unfold calculate_statistics.
  destruct (omap correct runs) as [|c cs] eqn:Ecs; [eauto|].
  assert (Forall (fun c => 0 <= c < 2 ^ 1000) (c :: cs)) as Hboth.
  { rewrite Forall_forall in Hsmall, Hpos |- *. intros x Hx.
    specialize (Hsmall x Hx). specialize (Hpos x Hx). lia. }
  pose proof (sum_int_from_bound (2 ^ 1000) (c :: cs) 0 ltac:(lia) Hboth) as Hsum.
  fold (sum_int (c :: cs)) in Hsum.
  assert (Z.of_nat (length (c :: cs)) < 2 ^ 20) as Hn.
  { change (2 ^ 20) with (Z.of_nat (2 ^ 20)). lia. }
  assert (2 ^ 20 * 2 ^ 1000 < 2 ^ 1023) as Hpow by reflexivity.
  assert (0 < Z.of_nat (length (c :: cs))) as Hn0 by (simpl; lia).
  destruct (int_true_div_returns (sum_int (c :: cs)) (Z.of_nat (length (c :: cs))))
    as [mc ->]; [lia| |].
  { revert Hsum Hn Hpow Hn0. generalize (sum_int (c :: cs)) (2 ^ 1000) (2 ^ 1023).
    intros. nia. }
  cbn [rbind]. unfold sum_left_to_right.
  destruct (sum_from_plain (omap percentage runs) (PInt 0)) as (sp & -> & Hsp);
    [left; reflexivity|exact Hplain|].
  cbn [rbind]. rewrite Hsame.
  assert (exists mp, py_div_len sp (length (c :: cs)) = Ok mp) as [mp ->]; [|simpl; eauto].
  destruct Hsp as [->|[f ->]]; unfold py_div_len.
  - apply int_true_div_returns; [lia|]. reflexivity.
  - cbn [length Nat.eqb].
    destruct (float_of_int_returns (Z.of_nat (S (length cs)))) as [d ->];
      [|simpl; eauto].
    revert Hn Hn0. cbn [length]. generalize (Z.of_nat (S (length cs))).
    intros z Hz Hz0. assert (2 ^ 20 < 2 ^ 1023) by reflexivity. lia.
Qed.

End StatisticsReturn.

Section StatisticsExamples.

(** The three sample runs are what [parse_score] returns. *)
Example sample_runs_parsed :
  parse_score (u "8 out of 10 answers are correct.") = Ok Sample.run_8
  /\ parse_score (u "I am unable to grade this.") = Ok Sample.run_none
  /\ parse_score (u "7 out of 10") = Ok Sample.run_7
  /\ parse_score (u "9 out of 10") = Ok Sample.run_9.
Proof. repeat split; vm_compute; reflexivity. Qed.

(** One unparseable run out of three: the means are over the two
    parseable runs. *)
Lemma calculate_statistics_means_witness :
  let runs := [Sample.run_8; Sample.run_none; Sample.run_7] in
  let st := {| mean_correct := Some 7.5%float;
               mean_percentage := Some 75%float;
               min_correct := Some 7;
               max_correct := Some 8;
               all_runs_parsed := false |} in
  calculate_statistics sum_left_to_right runs = Ok st
  /\ (exists m, mean_int [8; 7] = Ok m /\ mean_correct st = Some (float_round2 m))
  /\ (exists m, mean_num sum_left_to_right [PFloat 80; PFloat 70] = Ok m
                /\ mean_percentage st = Some (float_round2 m))
  /\ calculate_statistics sum_left_to_right [Sample.run_8; Sample.run_7] =
       Ok {| mean_correct := mean_correct st;
             mean_percentage := mean_percentage st;
             min_correct := min_correct st;
             max_correct := max_correct st;
             all_runs_parsed := true |}.
Proof.
  intros runs st.
  assert (calculate_statistics sum_left_to_right runs = Ok st) as H
    by (vm_compute; reflexivity).
  destruct (calculate_statistics_means sum_left_to_right runs st H)
    as (_ & Hmeans & st' & Hst' & _).
  destruct Hmeans as (Hc & Hp & _); [discriminate|].
  split; [exact H|]. split; [exact Hc|]. split; [exact Hp|].
  vm_compute. reflexivity.
Defined.

(** The aggregation example of the specification. *)
Example calculate_statistics_8_9_7 :
  calculate_statistics sum_left_to_right [Sample.run_8; Sample.run_9; Sample.run_7] =
    Ok {| mean_correct := Some 8%float;
          mean_percentage := Some 80%float;
          min_correct := Some 7;
          max_correct := Some 9;
          all_runs_parsed := true |}.
Proof. vm_compute. reflexivity. Qed.

Lemma all_runs_parsed_iff_witness :
  let runs := [Sample.run_8; Sample.run_9; Sample.run_7] in
  let st := {| mean_correct := Some 8%float;
               mean_percentage := Some 80%float;
               min_correct := Some 7;
               max_correct := Some 9;
               all_runs_parsed := true |} in
  calculate_statistics sum_left_to_right runs = Ok st
  /\ (all_runs_parsed st = true <-> runs <> [] /\ Forall parsed runs).
Proof.
  intros runs st.
  assert (calculate_statistics sum_left_to_right runs = Ok st) as H
    by (vm_compute; reflexivity).
  split; [exact H|].
  exact (all_runs_parsed_iff sum_left_to_right runs st H).
Defined.

(** C4 as stated fails on the empty list: every run in it is parsed,
    and [all_runs_parsed] is false. *)
Lemma all_runs_parsed_empty_counterexample :
  Forall parsed []
  /\ calculate_statistics sum_left_to_right [] =
       Ok {| mean_correct := None;
             mean_percentage := None;
             min_correct := None;
             max_correct := None;
             all_runs_parsed := false |}.
Proof. split; [constructor|reflexivity]. Qed.

End StatisticsExamples.

(** ** The judge clients *)

Section JudgeFacts.

Import Judge.

Variable w : world.
Variable psum : list pynum -> result pynum.

Lemma fold_tokens (chunks : list str) : forall acc,
  fold_left (fun acc text => acc ++ text) chunks acc = acc ++ concat chunks.
Proof.
  induction chunks as [|t chunks IH]; intros acc; simpl.
  - rewrite app_nil_r. reflexivity.
  - rewrite IH, app_assoc. reflexivity.
Qed.

Lemma fold_chunks (chunks : list (option str)) : forall acc,
  fold_left
    (fun acc chunk =>
       match chunk with
       | Some content_chunk =>
           if Nat.eqb (length content_chunk) 0 then acc else acc ++ content_chunk
       | None => acc
       end) chunks acc
  = acc ++ concat (omap id chunks).
Proof.
  induction chunks as [|[t|] chunks IH]; intros acc.
  - simpl. rewrite app_nil_r. reflexivity.
  - rewrite omap_cons. cbn [fold_left id concat]. rewrite IH.
    destruct t as [|c t]; simpl.
    + reflexivity.
    + rewrite <- app_assoc. reflexivity.
  - rewrite omap_cons. cbn [fold_left id]. apply IH.
Qed.

(** C8.  Both clients stream first.  When the stream runs to its end,
    the text returned is the concatenation of the streamed tokens and
    nothing else is called; when it fails, at its opening or at any
    chunk, exactly one blocking call follows, with the same model,
    evaluation prompt and transcript, and its outcome, text or error, is
    the outcome of the invocation. *)
Theorem streaming_fallback (config : dict) (content : str) (tr : list event) :
  let args := JudgeArgs (get_none config "model") EVALUATION_PROMPT content in
  match anthropic_stream w tr args with
  | (tokens, None) =>
      evaluate_with_anthropic w config content tr =
        (Ok (Some (concat tokens)), tr ++ [Api (MessagesStream args 4096)])
  | (_, Some _) =>
      evaluate_with_anthropic w config content tr =
        (match anthropic_create w (tr ++ [Api (MessagesStream args 4096)]) args with
         | Ok text => Ok (Some text)
         | Raise e => Raise e
         end,
         tr ++ [Api (MessagesStream args 4096); Api (MessagesCreate args 4096)])
  end
  /\
  match local_stream w tr args with
  | (chunks, None) =>
      evaluate_with_local w config content tr =
        (Ok (Some (concat (omap id chunks))), tr ++ [Api (ChatCompletions args true)])
  | (_, Some _) =>
      evaluate_with_local w config content tr =
        (local_create w (tr ++ [Api (ChatCompletions args true)]) args,
         tr ++ [Api (ChatCompletions args true); Api (ChatCompletions args false)])
  end.
Proof.
  intros args. split.
  - unfold evaluate_with_anthropic, try_except, bind, perform, ret, consume.
    fold args. destruct (anthropic_stream w tr args) as [tokens [e|]].
    + rewrite <- app_assoc.
      destruct (anthropic_create w (tr ++ [Api (MessagesStream args 4096)]) args);
        reflexivity.
    + rewrite fold_tokens. reflexivity.
  - unfold evaluate_with_local, try_except, bind, perform, ret, consume.
    fold args. destruct (local_stream w tr args) as [chunks [e|]].
    + rewrite <- app_assoc. reflexivity.
    + rewrite fold_chunks. reflexivity.
Qed.





End JudgeFacts.

Section JudgeExamples.

Import Judge.




(** The fallback on the sample world: the second repetition streams,
    fails, and is answered by the blocking call. *)
Example streaming_fallback_sample :
  let tr := [Api (ChatCompletions Sample.judge_args true)] in
  evaluate_results Sample.judge_world Sample.judge_config (u "--- NO. 1 - Setup") tr
  = (Ok (Some (u "I am unable to grade this.")),
     tr ++ [Api (ChatCompletions Sample.judge_args true);
            Api (ChatCompletions Sample.judge_args false)]).
Proof. vm_compute. reflexivity. Qed.

End JudgeExamples.

(** ** The test-suite run *)

Section SuiteFacts.

Import Suite.

Variable w : world.
Variable format_filename : document -> document -> str -> result str.

Lemma for_each_trace {E A B} (P : E -> Prop) (body : B -> A -> M E B) :
  (forall acc x tr res tr',
      body acc x tr = (res, tr') -> exists new, tr' = tr ++ new /\ Forall P new) ->
  forall l acc tr res tr',
    for_each l body acc tr = (res, tr') ->
    exists new, tr' = tr ++ new /\ Forall P new.
Proof.
  intros Hbody. induction l as [|x l IH]; intros acc tr res tr' H; simpl in H.
  - injection H as <- <-. exists []. rewrite app_nil_r. split; [reflexivity|constructor].
  - unfold bind in H. destruct (body acc x tr) as [[acc1|e] tr1] eqn:Hb.
    + destruct (Hbody _ _ _ _ _ Hb) as (new1 & -> & H1).
      destruct (IH _ _ _ _ H) as (new2 & -> & H2).
      exists (new1 ++ new2). rewrite app_assoc. split; [reflexivity|].
      apply Forall_app. split; assumption.
    + injection H as <- <-. exact (Hbody _ _ _ _ _ Hb).
Qed.

(** A call of [prompt] makes at most one generation call, for the
    question it is given and with the temperature of the model
    configuration, 0.0 when it has none. *)
Lemma prompt_trace model_config prompt_config question tr res tr' :
  prompt w model_config prompt_config question tr = (res, tr') ->
  (tr' = tr /\ exists e, res = Raise e)
  \/ exists mc rq,
       model_config = YMap mc
       /\ tr' = tr ++ [Generate rq]
       /\ rq_question rq = question
       /\ rq_temperature rq = get mc "temperature" (YFloat 0)
       /\ res = completion w tr rq.
Proof.
  unfold prompt, bind, lift, perform. intros H.
  destruct model_config; simpl in H; try solve [injection H as <- <-; left; eauto].
  destruct prompt_config; simpl in H; try solve [injection H as <- <-; left; eauto].
  injection H as <- <-. right. eexists _, _. repeat split; reflexivity.
Qed.

Lemma field_column r key v : field r key = Ok v -> is_Some (r !! u key) /\ column r key = v.
Proof.
  unfold field, column. destruct (r !! u key); [|discriminate].
  intros [= <-]. split; [eauto|reflexivity].
Qed.

(** The block the source appends is the block of the specification. *)
Lemma block_spec r qid section question expected_answer answer :
  column r "ID" = qid -> column r "Section" = section ->
  column r "Question" = question -> column r "ExpectedAnswer" = expected_answer ->
  block qid section question expected_answer answer = block_of r answer.
Proof.
  intros <- <- <- <-. unfold block, block_of, lines, fmt, shown.
  cbn [map concat]. rewrite <- !app_assoc, app_nil_r. reflexivity.
Qed.

Lemma process_row_ok model_config prompt_config out0 n0 r tr out n tr' :
  process_row w model_config prompt_config (out0, n0) r tr = (Ok (out, n), tr') ->
  well_formed r
  /\ n = S n0
  /\ exists answer rq,
       out = out0 ++ block_of r answer
       /\ tr' = tr ++ [Generate rq]
       /\ rq_question rq = column r "Question"
       /\ completion w tr rq = Ok answer.
Proof.
  unfold process_row, bind, lift, ret. intros H.
  destruct (field r "ID") as [qid|] eqn:E1; [|discriminate].
  destruct (field r "Section") as [sec|] eqn:E2; [|discriminate].
  destruct (field r "Question") as [q|] eqn:E3; [|discriminate].
  destruct (field r "ExpectedAnswer") as [ea|] eqn:E4; [|discriminate].
  destruct (prompt w model_config prompt_config q tr) as [[answer|e] tr1] eqn:Hp;
    [|discriminate].
  injection H as <- <- <-.
  apply field_column in E1 as [W1 C1], E2 as [W2 C2], E3 as [W3 C3], E4 as [W4 C4].
  split; [repeat split; assumption|]. split; [reflexivity|].
  apply prompt_trace in Hp as [[_ [e He]]|(mc & rq & _ & -> & Hq & _ & Hres)].
  - discriminate.
  - exists answer, rq. rewrite (block_spec r qid sec q ea answer C1 C2 C3 C4).
    rewrite Hq, C3. auto.
Qed.

Lemma rows_loop model_config prompt_config rows :
  forall out0 n0 tr out n tr',
    for_each rows (process_row w model_config prompt_config) (out0, n0) tr
      = (Ok (out, n), tr') ->
    Forall well_formed rows
    /\ n = (n0 + length rows)%nat
    /\ exists answers calls,
         length answers = length rows
         /\ out = out0 ++ concat (zip_with block_of rows answers)
         /\ tr' = tr ++ map Generate calls
         /\ length calls = length rows
         /\ map rq_question calls = map (fun r => column r "Question") rows
         /\ replies w tr calls answers.
Proof.
  induction rows as [|r rows IH]; intros out0 n0 tr out n tr' H; cbn [for_each] in H.
  - injection H as <- <- <-. split; [constructor|]. split; [simpl; lia|].
    exists [], []. simpl. rewrite !app_nil_r. repeat split; reflexivity.
  - unfold bind in H.
    destruct (process_row w model_config prompt_config (out0, n0) r tr)
      as [[[out1 n1]|e] tr1] eqn:Hrow; [|discriminate].
    apply process_row_ok in Hrow as (Hwf & -> & answer & rq & -> & -> & Hq & Hreply).
    apply IH in H as (Hall & -> & answers & calls & Hlen & -> & -> & Hcalls & Hasked & Hrep).
    split; [constructor; assumption|]. split; [simpl; lia|].
    exists (answer :: answers), (rq :: calls).
    cbn [length map zip_with concat replies].
    rewrite <- !app_assoc, Hlen, Hcalls, Hq, Hasked. repeat split; auto.
Qed.

(** C7.  For any model, a transcript that completes on a question
    source of [N] rows is the concatenation of [N] answer blocks, one
    per row and in the order of the rows, each the block of the
    specification with the id, the section, the question and the
    expected answer of its row and with the actual answer: the reply
    that the generation call for the row returned.  The rows have the
    four columns, and exactly one generation call was made per row, in
    that order, asking the question of the row. *)
Theorem transcript_blocks (model_config prompt_config : yaml) (rows : list row)
    (tr tr' : list event) (output : str) (question_count : nat) :
  process_questions w model_config prompt_config (rows, None) tr
    = (Ok (output, question_count), tr') ->
  Forall well_formed rows
  /\ question_count = length rows
  /\ exists answers calls,
       length answers = length rows
       /\ output = concat (zip_with block_of rows answers)
       /\ tr' = tr ++ map Generate calls
       /\ length calls = length rows
       /\ map rq_question calls = map (fun r => column r "Question") rows
       /\ replies w tr calls answers.
Proof.
  unfold process_questions, bind. cbn [fst snd]. intros H.
  destruct (for_each rows (process_row w model_config prompt_config) ([], 0%nat) tr)
    as [[[out n]|e] tr1] eqn:Hloop; [|discriminate].
  injection H as <- <- <-.
  apply rows_loop in Hloop. exact Hloop.
Qed.

Lemma process_row_trace (mc : dict) prompt_config acc r tr res tr' :
  process_row w (YMap mc) prompt_config acc r tr = (res, tr') ->
  exists new, tr' = tr ++ new /\ Forall (sends (get mc "temperature" (YFloat 0))) new.
Proof.
  unfold process_row, bind, lift, ret. destruct acc as [output question_count]. intros H.
  assert (exists new, tr = tr ++ new
                      /\ Forall (sends (get mc "temperature" (YFloat 0))) new) as Hnil
    by (exists []; rewrite app_nil_r; split; [reflexivity|constructor]).
  destruct (field r "ID"); [|injection H as <- <-; exact Hnil].
  destruct (field r "Section"); [|injection H as <- <-; exact Hnil].
  destruct (field r "Question") as [q|]; [|injection H as <- <-; exact Hnil].
  destruct (field r "ExpectedAnswer"); [|injection H as <- <-; exact Hnil].
  destruct (prompt w (YMap mc) prompt_config q tr) as [res1 tr1] eqn:Hp.
  assert (tr' = tr1) as -> by (destruct res1; injection H as <- <-; reflexivity).
  apply prompt_trace in Hp as [[-> _]|(mc' & rq & Hmc & -> & _ & Ht & _)]; [exact Hnil|].
  injection Hmc as <-. exists [Generate rq]. split; [reflexivity|].
  constructor; [|constructor]. intros v Hv. simpl in Hv. congruence.
Qed.

Lemma process_questions_trace (mc : dict) prompt_config source tr res tr' :
  process_questions w (YMap mc) prompt_config source tr = (res, tr') ->
  exists new, tr' = tr ++ new /\ Forall (sends (get mc "temperature" (YFloat 0))) new.
Proof.
  unfold process_questions, bind. intros H.
  destruct (for_each (fst source) (process_row w (YMap mc) prompt_config) ([], 0%nat) tr)
    as [res1 tr1] eqn:Hloop.
  apply (for_each_trace (sends (get mc "temperature" (YFloat 0)))) in Hloop.
  - assert (tr' = tr1) as ->; [|exact Hloop].
    destruct res1; [destruct (snd source)|]; injection H as <- <-; reflexivity.
  - intros acc x t res2 t2 Hb. exact (process_row_trace mc _ _ _ _ _ _ Hb).
Qed.

(** C10.  For a model configuration without a temperature: the request
    built by [prompt] carries temperature 0.0; processing the model
    first prints temperature 0.7, and every generation call that
    follows is sent with 0.0. *)
Theorem default_temperature (config : dict) (results_path questions_path : path)
    (prompt_config : yaml) (models_done : list manifest_entry) (mc : dict)
    (tr tr' : list event) (res : result (list manifest_entry)) :
  mc !! u "temperature" = None ->
  process_model w format_filename config results_path questions_path prompt_config
    models_done (YMap mc) tr = (res, tr') ->
  (forall pc question t,
      exists rq,
        prompt w (YMap mc) (YMap pc) question t = (completion w t rq, t ++ [Generate rq])
        /\ rq_question rq = question
        /\ rq_temperature rq = YFloat 0)
  /\ exists rest,
       tr' = tr ++ PrintTemperature (YFloat 0.7) :: rest
       /\ Forall (sends (YFloat 0)) rest.
Proof.
  intros Hnone H.
  assert (forall d, get mc "temperature" d = d) as Hget
    by (intros d; unfold get; rewrite Hnone; reflexivity).
  split.
  - intros pc question t. unfold prompt, bind, lift, perform. simpl.
    rewrite Hget. eexists. repeat split; reflexivity.
  - unfold process_model, bind, lift, emit, perform, ret in H. simpl in H.
    rewrite Hget in H.
    destruct (process_questions w (YMap mc) prompt_config (read_rows w questions_path)
                (tr ++ [PrintTemperature (YFloat 0.7)])) as [res1 tr1] eqn:Hq.
    apply process_questions_trace in Hq as (new & -> & Hnew). rewrite Hget in Hnew.
    rewrite <- app_assoc in H. simpl in H.
    destruct res1 as [out|e]; [|injection H as <- <-; eauto].
    destruct (as_dict AttributeError (get config "output" (YMap ∅))) as [oc|];
      [|injection H as <- <-; eauto].
    destruct (format_filename _ _ _) as [filename|]; [|injection H as <- <-; eauto].
    assert (tr' = (tr ++ PrintTemperature (YFloat 0.7) :: new)
                    ++ [WriteText (results_path ++ [filename]) (fst out)]) as ->
      by (destruct (write_text w _ _ _); injection H as <- <-; reflexivity).
    rewrite <- app_assoc. simpl.
    exists (new ++ [WriteText (results_path ++ [filename]) (fst out)]).
    split; [reflexivity|]. apply Forall_app. split; [exact Hnew|].
    constructor; [|constructor]. intros v Hv. discriminate.
Qed.

(** C9.  A run with a setup error, no configuration file, no models
    configured or no question file, ends with an exception, and no
    generation call is made in it. *)
Theorem setup_errors_abort (test_suite : str) (tr : list event) :
  setup_error w test_suite ->
  exists e new,
    run_test_suite w format_filename test_suite tr = (Raise e, tr ++ new)
    /\ Forall (fun ev => is_generate ev = false) new.
Proof.
  intros Hsetup. unfold run_test_suite.
  assert (forall e, exists e' new,
            (Raise e : result unit, tr) = (Raise e', tr ++ new)
            /\ Forall (fun ev => is_generate ev = false) new) as Hnow.
  { intros e. exists e, []. rewrite app_nil_r. split; [reflexivity|constructor]. }
  destruct (exists_path w [u "test_suites"; test_suite]); cbn [negb]; [|apply Hnow].
  set (results_path := [u "results"; test_suite ++ u "_" ++ now_stamp w]).
  assert (forall e, exists e' new,
            (Raise e : result unit, tr ++ [Mkdir results_path]) = (Raise e', tr ++ new)
            /\ Forall (fun ev => is_generate ev = false) new) as Hdir.
  { intros e. exists e, [Mkdir results_path]. split; [reflexivity|].
    constructor; [reflexivity|constructor]. }
  unfold bind, emit, lift, raise, load_config.
  unfold setup_error in Hsetup. cbv zeta in Hsetup. cbn [app] in Hsetup.
  cbn [app].
  destruct (exists_path w [u "test_suites"; test_suite; u "config.yaml"]) eqn:Hcfg;
    cbn [negb]; [|apply Hdir].
  destruct (load_yaml w [u "test_suites"; test_suite; u "config.yaml"])
    as [loaded|] eqn:Hload; [|apply Hdir].
  destruct (as_dict AttributeError loaded) as [config|] eqn:Hdict; [|apply Hdir].
  assert (loaded = YMap config) as -> by (destruct loaded; simpl in Hdict; congruence).
  destruct (item config "api"); [|apply Hdir].
  destruct (as_dict TypeError _); [|apply Hdir].
  destruct (item _ "base_url"); [|apply Hdir].
  destruct (truthy (get config "models" (YSeq []))) eqn:Hmodels; cbn [negb]; [|apply Hdir].
  destruct (get config "models" (YSeq [])) as [| | | | |model_list| |] eqn:Hm;
    try apply Hdir.
  destruct (check_names model_list); [|apply Hdir].
  destruct (create_client w config); [|apply Hdir].
  destruct (get config "questions_file" (YStr (u "questions.csv")))
    as [| | | |f| | |] eqn:Hf; try apply Hdir.
  destruct (exists_path w [u "test_suites"; test_suite; f]) eqn:Hq; cbn [negb];
    [|apply Hdir].
  exfalso. destruct Hsetup as [H|[(config' & H & Hfalse)|(config' & f' & H & Hf' & Hno)]].
  - congruence.
  - injection H as <-. rewrite Hm in Hfalse. congruence.
  - injection H as <-. rewrite Hf in Hf'. injection Hf' as <-. congruence.
Qed.

End SuiteFacts.

Section SuiteExamples.

Import Suite.

(** The sample suite: two rows give a transcript of two blocks. *)
Lemma transcript_blocks_witness :
  process_questions Sample.suite_world (YMap Sample.suite_model) (YMap ∅)
    (Sample.suite_rows, None) []
  = (Ok (Sample.suite_transcript, 2%nat), Sample.suite_calls)
  /\ Forall well_formed Sample.suite_rows
  /\ 2%nat = length Sample.suite_rows
  /\ exists answers calls,
       length answers = length Sample.suite_rows
       /\ Sample.suite_transcript = concat (zip_with block_of Sample.suite_rows answers)
       /\ Sample.suite_calls = [] ++ map Generate calls
       /\ length calls = length Sample.suite_rows
       /\ map rq_question calls = map (fun r => column r "Question") Sample.suite_rows
       /\ replies Sample.suite_world [] calls answers.
Proof.
  assert (process_questions Sample.suite_world (YMap Sample.suite_model) (YMap ∅)
            (Sample.suite_rows, None) []
          = (Ok (Sample.suite_transcript, 2%nat), Sample.suite_calls)) as H
    by (vm_compute; reflexivity).
  split; [exact H|].
  exact (transcript_blocks Sample.suite_world (YMap Sample.suite_model) (YMap ∅)
           Sample.suite_rows [] Sample.suite_calls Sample.suite_transcript 2%nat H).
Defined.

(** The sample model has no temperature: 0.7 is printed, 0.0 is sent. *)
Lemma default_temperature_witness :
  Sample.suite_model !! u "temperature" = None
  /\ process_model Sample.suite_world Sample.format_demo Sample.suite_config
       Sample.suite_results_path Sample.suite_questions_path (YMap ∅) []
       (YMap Sample.suite_model) []
     = (Ok [Sample.suite_entry], Sample.model_trace)
  /\ (forall pc question t,
        exists rq,
          prompt Sample.suite_world (YMap Sample.suite_model) (YMap pc) question t
            = (completion Sample.suite_world t rq, t ++ [Generate rq])
          /\ rq_question rq = question
          /\ rq_temperature rq = YFloat 0)
  /\ exists rest,
       Sample.model_trace = [] ++ PrintTemperature (YFloat 0.7) :: rest
       /\ Forall (sends (YFloat 0)) rest.
Proof.
  assert (Sample.suite_model !! u "temperature" = None) as Hnone
    by (vm_compute; reflexivity).
  assert (process_model Sample.suite_world Sample.format_demo Sample.suite_config
            Sample.suite_results_path Sample.suite_questions_path (YMap ∅) []
            (YMap Sample.suite_model) []
          = (Ok [Sample.suite_entry], Sample.model_trace)) as H
    by (vm_compute; reflexivity).
  split; [exact Hnone|]. split; [exact H|].
  exact (default_temperature Sample.suite_world Sample.format_demo Sample.suite_config
           Sample.suite_results_path Sample.suite_questions_path (YMap ∅) []
           Sample.suite_model [] Sample.model_trace (Ok [Sample.suite_entry]) Hnone H).
Defined.

(** The sample suite without its configuration file. *)
Lemma setup_errors_abort_witness :
  setup_error Sample.bare_world (u "demo")
  /\ run_test_suite Sample.bare_world Sample.format_demo (u "demo") []
     = (Raise FileNotFoundError, [Mkdir Sample.suite_results_path])
  /\ exists e new,
       run_test_suite Sample.bare_world Sample.format_demo (u "demo") []
         = (Raise e, [] ++ new)
       /\ Forall (fun ev => is_generate ev = false) new.
Proof.
  assert (setup_error Sample.bare_world (u "demo")) as H
    by (left; vm_compute; reflexivity).
  split; [exact H|]. split; [vm_compute; reflexivity|].
  exact (setup_errors_abort Sample.bare_world Sample.format_demo (u "demo") [] H).
Defined.

(** The end-to-end scenario of the specification: two questions and one
    model give one transcript of two blocks and a manifest listing the
    model. *)
Example run_test_suite_sample :
  run_test_suite Sample.suite_world Sample.format_demo (u "demo") []
  = (Ok tt, Sample.suite_trace).
Proof. vm_compute. reflexivity. Qed.

(** With a date in the configuration the run does all its work and
    raises in writing the manifest. *)
Example run_test_suite_dated :
  run_test_suite Sample.dated_world Sample.format_demo (u "demo") []
  = (Raise TypeError,
     Mkdir Sample.suite_results_path :: Sample.model_trace
     ++ [WriteManifest (Sample.suite_results_path ++ [u "resultset.json"])
           (Manifest (YMap Sample.dated_config) [Sample.suite_entry])]).
Proof. vm_compute. reflexivity. Qed.

(** A transcript that cannot be opened: the model raises after its
    calls, and is not listed. *)
Example process_model_slash :
  process_model Sample.slash_world Sample.format_slash Sample.suite_config
    Sample.suite_results_path Sample.suite_questions_path (YMap ∅) []
    (YMap Sample.slash_model) []
  = (Raise FileNotFoundError,
     [PrintTemperature (YFloat 0.7);
      Generate (Request (YStr (u "org/m1")) (YStr (u "You are a helpful assistant."))
                  (Some (u "Which alias is used?")) (YFloat 0));
      Generate (Request (YStr (u "org/m1")) (YStr (u "You are a helpful assistant."))
                  (Some (u "How do you list pods?")) (YFloat 0));
      WriteText (Sample.suite_results_path ++ [u "results_org/m1.txt"])
        (concat (zip_with block_of Sample.suite_rows
                   [Some (u "Answer: Which alias is used?");
                    Some (u "Answer: How do you list pods?")]))]).
Proof. vm_compute. reflexivity. Qed.

(** Without a key the client cannot be made. *)
Example create_client_keyless :
  create_client Sample.suite_world Sample.keyless_config = Raise OpenAIError.
Proof. vm_compute. reflexivity. Qed.

(** A short row raises nothing: its missing fields show as [None], and
    the question asked is [None]. *)
Example process_questions_short_row :
  process_questions Sample.suite_world (YMap Sample.suite_model) (YMap ∅)
    ([Sample.short_row], None) []
  = (Ok (Sample.short_transcript, 1%nat),
     [Generate (Request (YStr (u "m1")) (YStr (u "You are a helpful assistant."))
                  None (YFloat 0))]).
Proof. vm_compute. reflexivity. Qed.

End SuiteExamples.

(** ** More on [parse_score] *)

Section ParseScoreMore.

Lemma span_digits post :
  exists e rest,
    post = e ++ rest
    /\ Forall (fun c => is_decimal c = true) e
    /\ starts_with_digit rest = false.
Proof.
  induction post as [|c post (e & rest & -> & He & Hrest)].
  - exists [], []. repeat split; constructor.
  - destruct (is_decimal c) eqn:Hc.
    + exists (c :: e), rest. repeat split; [constructor; assumption|exact Hrest].
    + exists [], (c :: e ++ rest). repeat split; [constructor|exact Hc].
Qed.

Lemma score_phrase_extend d1 d2 m e :
  score_phrase d1 d2 m ->
  Forall (fun c => is_decimal c = true) e ->
  score_phrase d1 (d2 ++ e) (m ++ e).
Proof.
  intros (b1 & b2 & b3 & Hd1 & Hb1 & Hb2 & Hb3 & [Hne Hd2] & ->) He.
  exists b1, b2, b3. repeat (split; [assumption|]). split.
  - split; [destruct d2; [congruence|discriminate]|].
    apply Forall_app. split; assumption.
  - rewrite <- !app_assoc. reflexivity.
Qed.

(** What [search] returns for the score pattern: the integers of the
    first score phrase, the second one taken whole. *)
Lemma search_score_some s i gs :
  search score_pattern s = Some (i, gs) ->
  exists pre d1 d2 m post,
    gs = [d1; d2]
    /\ s = pre ++ m ++ post
    /\ score_phrase d1 d2 m
    /\ starts_with_digit post = false
    /\ (forall pre' d1' d2' m' post',
          s = pre' ++ m' ++ post' -> score_phrase d1' d2' m' ->
          (length pre <= length pre')%nat).
Proof.
  intros H. unfold search in H.
  apply search_from_some in H as (pre & sfx & tl & -> & _ & Hm & Hearlier).
  destruct (match_here_sound _ _ _ _ Hm) as (m & -> & Hl).
  destruct (lang_score_phrase _ _ Hl) as (d1 & d2 & -> & Hp).
  destruct (span_digits tl) as (e & rest & -> & He & Hrest).
  pose proof (match_here_score_phrase d1 (d2 ++ e) (m ++ e) rest
                (score_phrase_extend _ _ _ _ Hp He) Hrest) as Hm'.
  rewrite <- app_assoc in Hm'. rewrite Hm in Hm'.
  injection Hm' as Hd He'.
  assert (e = []) as -> by (apply (app_inv_head d2); rewrite app_nil_r; symmetry; exact Hd).
  exists pre, d1, d2, m, rest. repeat split; auto.
  intros pre' d1' d2' m' post' E Hp'.
  destruct (Nat.le_gt_cases (length pre) (length pre')) as [|Hlt]; [assumption|].
  destruct (match_here_complete score_pattern m' [d1'; d2'] post'
              (score_phrase_lang _ _ _ Hp')) as (gs2 & tl2 & Hm2).
  simpl in E. rewrite (Hearlier pre' (m' ++ post') E Hlt) in Hm2. discriminate.
Qed.

Lemma py_int_raises g e : py_int g = Raise e -> e = ValueError.
Proof.
  unfold py_int. destruct (_ && _); [|congruence].
  destruct (_ <? _)%nat; congruence.
Qed.

Lemma int_true_div_raises a b e :
  int_true_div a b = Raise e -> b <> 0 -> e = OverflowError.
Proof.
  unfold int_true_div. destruct (Z.eqb_spec b 0); [contradiction|].
  destruct (_ <=? _); congruence.
Qed.

(** Whenever [parse_score] returns numbers, they are the integers of
    the first score phrase of the text, the second one taken whole, and
    the percentage of the first in the second. *)
Theorem parse_score_numbers_origin (s : str) (r : run) (c : Z) :
  parse_score s = Ok r ->
  correct r = Some c ->
  exists pre d1 d2 m post p,
    s = pre ++ m ++ post
    /\ score_phrase d1 d2 m
    /\ starts_with_digit post = false
    /\ (forall pre' d1' d2' m' post',
          s = pre' ++ m' ++ post' -> score_phrase d1' d2' m' ->
          (length pre <= length pre')%nat)
    /\ c = digits_value d1
    /\ total r = Some (digits_value d2)
    /\ percent (digits_value d1) (digits_value d2) = Ok p
    /\ percentage r = Some p.
Proof.
  unfold parse_score. intros H Hc.
  destruct (search score_pattern s) as [[i gs]|] eqn:Hs.
  2:{ injection H as <-. discriminate. }
  apply search_score_some in Hs as (pre & d1 & d2 & m & post & -> & E & Hp & Hpost & Hfirst).
  cbn [lookup list_lookup rbind] in H.
  destruct (py_int d1) as [c1|] eqn:E1; [|discriminate]. cbn [rbind] in H.
  destruct (py_int d2) as [t|] eqn:E2; [|discriminate]. cbn [rbind] in H.
  apply py_int_value in E1, E2. subst c1 t.
  pose proof (digits_value_nonneg d2) as Hnn.
  assert (exists p, percent (digits_value d1) (digits_value d2) = Ok p
                    /\ r = {| correct := Some (digits_value d1);
                              total := Some (digits_value d2);
                              percentage := Some p;
                              raw_output := strip s;
                              parse_error := None |}) as (p & Hpc & ->).
  { unfold percent. destruct (Z.eqb_spec (digits_value d2) 0) as [E0|E0].
    - rewrite E0 in H. cbn in H. injection H as <-. rewrite E0. eauto.
    - assert ((0 <? digits_value d2) = true) as Hlt by (apply Z.ltb_lt; lia).
      rewrite Hlt in H.
      destruct (int_true_div (digits_value d1) (digits_value d2)) as [q|];
        [|discriminate].
      cbn in H. injection H as <-. eauto. }
  simpl in Hc. injection Hc as <-.
  exists pre, d1, d2, m, post, p. repeat split; auto.
Qed.

End ParseScoreMore.

Section ParseScoreRaises.

Lemma py_int_digits_raises d e :
  digits d -> py_int d = Raise e ->
  e = ValueError /\ (int_max_str_digits < length d)%nat.
Proof.
  intros Hd H. split; [exact (py_int_raises d e H)|].
  destruct (Nat.le_gt_cases (length d) int_max_str_digits) as [Hle|]; [|assumption].
  rewrite (py_int_digits d Hd Hle) in H. discriminate.
Qed.

Lemma digits_value_from_lt ds : forall acc, 0 <= acc ->
  fold_left (fun acc c => 10 * acc + default 0 (decimal_value c)) ds acc + 1
  <= (acc + 1) * 10 ^ Z.of_nat (length ds).
Proof.
  induction ds as [|c ds IH]; intros acc Hacc.
  - simpl. lia.
  - cbn [fold_left length]. rewrite Nat2Z.inj_succ, Z.pow_succ_r by lia.
    assert (0 <= default 0 (decimal_value c) <= 9) as Hv.
    { unfold decimal_value.
      destruct (List.find (in_block c) decimal_blocks) as [b|];
        unfold default, from_option, id; [|lia].
      pose proof (N.mod_lt (c - fst b) 10 ltac:(discriminate)) as Hm.
      revert Hm. generalize ((c - fst b) mod 10)%N. intros x Hx. lia. }
    specialize (IH (10 * acc + default 0 (decimal_value c)) ltac:(lia)).
    assert (0 < 10 ^ Z.of_nat (length ds)) by (apply Z.pow_pos_nonneg; lia).
    nia.
Qed.

Lemma digits_value_lt ds : digits_value ds < 10 ^ Z.of_nat (length ds).
Proof.
  pose proof (digits_value_from_lt ds 0 ltac:(lia)) as H.
  unfold digits_value. lia.
Qed.

Lemma digits_value_small ds :
  (length ds <= 300)%nat -> digits_value ds < 2 ^ 1023.
Proof.
  intros Hlen. pose proof (digits_value_lt ds) as H.
  assert (10 ^ Z.of_nat (length ds) <= 10 ^ 300) as Hpow
    by (apply Z.pow_le_mono_r; lia).
  assert (10 ^ 300 < 2 ^ 1023) as Hbig by reflexivity.
  revert H Hpow Hbig.
  generalize (digits_value ds) (10 ^ Z.of_nat (length ds)) (10 ^ 300) (2 ^ 1023).
  intros. lia.
Qed.

(** [parse_score] raises in two cases only, both on the first score
    phrase of the text, the leftmost one, with its second integer
    taken whole: [ValueError] when one of its integers is longer than
    the interpreter's limit, [OverflowError] when the quotient of the
    two is beyond the floats.  A zero total never makes it raise. *)
Theorem parse_score_raises (s : str) (e : exn) :
  parse_score s = Raise e ->
  exists pre d1 d2 m post,
    s = pre ++ m ++ post
    /\ score_phrase d1 d2 m
    /\ starts_with_digit post = false
    /\ (forall pre' d1' d2' m' post',
          s = pre' ++ m' ++ post' -> score_phrase d1' d2' m' ->
          (length pre <= length pre')%nat)
    /\ ((e = ValueError
         /\ ((int_max_str_digits < length d1)%nat
             \/ (int_max_str_digits < length d2)%nat))
        \/ (e = OverflowError
            /\ 0 < digits_value d2
            /\ digits_value d2 * overflow_threshold <= digits_value d1)).
Proof.
  unfold parse_score. intros H.
  destruct (search score_pattern s) as [[i gs]|] eqn:Hs; [|discriminate].
  apply search_score_some in Hs
    as (pre & d1 & d2 & m & post & -> & E & Hp & Hpost & Hfirst).
  exists pre, d1, d2, m, post.
  split; [exact E|]. split; [exact Hp|]. split; [exact Hpost|]. split; [exact Hfirst|].
  destruct Hp as (b1 & b2 & b3 & Hd1 & _ & _ & _ & Hd2 & _).
  cbn [lookup list_lookup rbind] in H.
  destruct (py_int d1) as [c|e1] eqn:E1; cbn [rbind] in H.
  2:{ injection H as <-. apply (py_int_digits_raises d1) in E1 as [-> Hl]; auto. }
  destruct (py_int d2) as [t|e2] eqn:E2; cbn [rbind] in H.
  2:{ injection H as <-. apply (py_int_digits_raises d2) in E2 as [-> Hl]; auto. }
  apply py_int_value in E1, E2. subst c t.
  pose proof (digits_value_nonneg d1) as Hn1.
  destruct (Z.ltb_spec 0 (digits_value d2)) as [Hpos|Hzero]; [|discriminate].
  unfold int_true_div in H.
  destruct (Z.eqb_spec (digits_value d2) 0) as [|_]; [lia|].
  destruct (Z.leb_spec (Z.abs (digits_value d2) * overflow_threshold)
              (Z.abs (digits_value d1))) as [Hle|_]; [|discriminate].
  cbn [rbind] in H. injection H as <-. right.
  rewrite !Z.abs_eq in Hle by lia. auto.
Qed.

Lemma sublist_length {A} (s pre d post : list A) :
  s = pre ++ d ++ post -> (length d <= length s)%nat.
Proof. intros ->. rewrite !length_app. lia. Qed.

(** [parse_score] returns on every text whose runs of digits have at
    most 300 characters. *)
Theorem parse_score_returns (s : str) :
  (forall pre d post,
      s = pre ++ d ++ post -> Forall (fun c => is_decimal c = true) d ->
      (length d <= 300)%nat) ->
  exists r, parse_score s = Ok r.
Proof.
  intros Hruns. unfold parse_score.
  destruct (search score_pattern s) as [[i gs]|] eqn:Hs; [|eauto].
  apply search_score_some in Hs as (pre & d1 & d2 & m & post & -> & E & Hp & _ & _).
  destruct Hp as (b1 & b2 & b3 & Hd1 & _ & _ & _ & Hd2 & Em).
  assert ((length d1 <= 300)%nat) as Hl1.
  { apply (Hruns pre d1 (b1 ++ u "out" ++ b2 ++ u "of" ++ b3 ++ d2 ++ post)).
    - rewrite E, Em, <- !app_assoc. reflexivity.
    - exact (proj2 Hd1). }
  assert ((length d2 <= 300)%nat) as Hl2.
  { apply (Hruns (pre ++ d1 ++ b1 ++ u "out" ++ b2 ++ u "of" ++ b3) d2 post).
    - rewrite E, Em, <- !app_assoc. reflexivity.
    - exact (proj2 Hd2). }
  cbn [lookup list_lookup rbind].
  rewrite (py_int_digits d1 Hd1) by (unfold int_max_str_digits; lia). cbn [rbind].
  rewrite (py_int_digits d2 Hd2) by (unfold int_max_str_digits; lia). cbn [rbind].
  destruct (0 <? digits_value d2) eqn:Hpos; [|cbn [rbind]; eauto].
  apply Z.ltb_lt in Hpos.
  destruct (int_true_div_returns (digits_value d1) (digits_value d2)) as [q ->];
    [lia| |cbn [rbind]; eauto].
  pose proof (digits_value_nonneg d1). pose proof (digits_value_small d1 Hl1).
  rewrite Z.abs_eq; lia.
Qed.

Lemma parse_score_returns_witness :
  let s := u "Overall 58 out of 100 answers are correct." in
  (forall pre d post,
      s = pre ++ d ++ post -> Forall (fun c => is_decimal c = true) d ->
      (length d <= 300)%nat)
  /\ exists r, parse_score s = Ok r.
Proof.
  intros s.
  assert (forall pre d post,
             s = pre ++ d ++ post -> Forall (fun c => is_decimal c = true) d ->
             (length d <= 300)%nat) as H.
  { intros pre d post E _. apply sublist_length in E.
    assert ((length s <= 300)%nat) by (vm_compute; lia). lia. }
  split; [exact H|]. exact (parse_score_returns s H).
Defined.

Lemma parse_score_raises_witness :
  let s := u "1" ++ repeat 48%N 400 ++ u " out of 1" in
  parse_score s = Raise OverflowError
  /\ exists pre d1 d2 m post,
       s = pre ++ m ++ post
       /\ score_phrase d1 d2 m
       /\ starts_with_digit post = false
       /\ (forall pre' d1' d2' m' post',
             s = pre' ++ m' ++ post' -> score_phrase d1' d2' m' ->
             (length pre <= length pre')%nat)
       /\ ((OverflowError = ValueError
            /\ ((int_max_str_digits < length d1)%nat
                \/ (int_max_str_digits < length d2)%nat))
           \/ (OverflowError = OverflowError
               /\ 0 < digits_value d2
               /\ digits_value d2 * overflow_threshold <= digits_value d1)).
Proof.
  intros s.
  assert (parse_score s = Raise OverflowError) as H by (vm_compute; reflexivity).
  split; [exact H|]. exact (parse_score_raises s OverflowError H).
Defined.

Lemma parse_score_numbers_origin_witness :
  let s := u "Overall 58 out of 100 answers are correct." in
  let r := {| correct := Some 58; total := Some 100; percentage := Some (PFloat 58);
              raw_output := s; parse_error := None |} in
  parse_score s = Ok r
  /\ correct r = Some 58
  /\ exists pre d1 d2 m post p,
       s = pre ++ m ++ post
       /\ score_phrase d1 d2 m
       /\ starts_with_digit post = false
       /\ (forall pre' d1' d2' m' post',
             s = pre' ++ m' ++ post' -> score_phrase d1' d2' m' ->
             (length pre <= length pre')%nat)
       /\ 58 = digits_value d1
       /\ total r = Some (digits_value d2)
       /\ percent (digits_value d1) (digits_value d2) = Ok p
       /\ percentage r = Some p.
Proof.
  intros s r.
  assert (parse_score s = Ok r) as H by (vm_compute; reflexivity).
  split; [exact H|]. split; [reflexivity|].
  exact (parse_score_numbers_origin s r 58 H eq_refl).
Defined.

End ParseScoreRaises.

(** ** The raw output *)

Section RawOutput.

Lemma lstrip_spec s :
  exists a,
    s = a ++ lstrip s
    /\ Forall (fun c => is_space c = true) a
    /\ (forall c, head (lstrip s) = Some c -> is_space c = false).
Proof.
  induction s as [|x s (a & E & Ha & Hh)]; simpl.
  - exists []. repeat split; [constructor|discriminate].
  - destruct (is_space x) eqn:Hx.
    + exists (x :: a). simpl. rewrite <- E. repeat split; auto.
    + exists []. repeat split; [constructor|]. simpl. congruence.
Qed.

Lemma lstrip_snoc l c :
  is_space c = false -> exists k, lstrip (l ++ [c]) = k ++ [c].
Proof.
  intros Hc. induction l as [|x l [k IH]]; simpl.
  - rewrite Hc. exists []. reflexivity.
  - destruct (is_space x); [eauto|]. exists (x :: l). reflexivity.
Qed.

Lemma rstrip_spec s :
  exists b,
    s = rstrip s ++ b
    /\ Forall (fun c => is_space c = true) b
    /\ (forall c, last (rstrip s) = Some c -> is_space c = false).
Proof.
  unfold rstrip. destruct (lstrip_spec (rev s)) as (a & E & Ha & Hh).
  exists (rev a). split; [|split].
  - rewrite <- rev_app_distr, <- E, rev_involutive. reflexivity.
  - apply Forall_forall. intros c Hc. rewrite Forall_forall in Ha. apply Ha.
    apply list_elem_of_In. apply list_elem_of_In in Hc. apply in_rev. exact Hc.
  - intros c Hc. apply Hh.
    destruct (lstrip (rev s)) as [|x t]; [discriminate|].
    simpl in Hc. rewrite last_snoc in Hc. exact Hc.
Qed.

Lemma rstrip_head t c :
  head t = Some c -> is_space c = false -> head (rstrip t) = Some c.
Proof.
  destruct t as [|x t]; [discriminate|]. intros [= ->] Hc.
  unfold rstrip. simpl.
  destruct (lstrip_snoc (rev t) c Hc) as [k ->].
  rewrite rev_app_distr. reflexivity.
Qed.

Lemma rstrip_nil_head t :
  (forall c, head t = Some c -> is_space c = false) ->
  forall c, head (rstrip t) = Some c -> is_space c = false.
Proof.
  intros Ht c Hc. destruct t as [|x t].
  - discriminate.
  - specialize (Ht x eq_refl).
    rewrite (rstrip_head (x :: t) x eq_refl Ht) in Hc. congruence.
Qed.

Lemma parse_score_raw s r : parse_score s = Ok r -> raw_output r = strip s.
Proof.
  unfold parse_score. destruct (search score_pattern s) as [[i gs]|].
  - destruct (gs !! 0%nat); [|discriminate]. cbn [rbind].
    destruct (py_int _); [|discriminate]. cbn [rbind].
    destruct (gs !! 1%nat); [|discriminate]. cbn [rbind].
    destruct (py_int _); [|discriminate]. cbn [rbind].
    destruct (if 0 <? _ then _ else _); [|discriminate]. cbn [rbind].
    intros [= <-]. reflexivity.
  - intros [= <-]. reflexivity.
Qed.

(** The raw output kept by [parse_score] is the judge's text with
    nothing but whitespace taken away at its two ends: it is a
    contiguous part of the text, what is left out before and after it
    is whitespace, and it neither begins nor ends with whitespace. *)
Theorem raw_output_trimmed (s : str) (r : run) :
  parse_score s = Ok r ->
  exists a b,
    s = a ++ raw_output r ++ b
    /\ Forall (fun c => is_space c = true) a
    /\ Forall (fun c => is_space c = true) b
    /\ (forall c, first_char (raw_output r) = Some c -> is_space c = false)
    /\ (forall c, last_char (raw_output r) = Some c -> is_space c = false).
Proof.
  intros H. rewrite (parse_score_raw s r H). unfold strip, first_char, last_char.
  destruct (lstrip_spec s) as (a & Ea & Ha & Hh).
  destruct (rstrip_spec (lstrip s)) as (b & Eb & Hb & Hl).
  exists a, b. split; [|split; [|split; [|split]]]; auto.
  - rewrite <- Eb. exact Ea.
  - apply rstrip_nil_head. exact Hh.
Qed.

Lemma raw_output_trimmed_witness :
  let s := u "  The answers could not be graded.  " in
  let r := {| correct := None; total := None; percentage := None;
              raw_output := u "The answers could not be graded.";
              parse_error := Some (u "Could not parse score from output") |} in
  parse_score s = Ok r
  /\ exists a b,
       s = a ++ raw_output r ++ b
       /\ Forall (fun c => is_space c = true) a
       /\ Forall (fun c => is_space c = true) b
       /\ (forall c, first_char (raw_output r) = Some c -> is_space c = false)
       /\ (forall c, last_char (raw_output r) = Some c -> is_space c = false).
Proof.
  intros s r.
  assert (parse_score s = Ok r) as H by (vm_compute; reflexivity).
  split; [exact H|]. exact (raw_output_trimmed s r H).
Defined.

End RawOutput.

(** ** More on [calculate_statistics] *)

Section StatisticsMore.

Lemma sum_int_from l : forall a, fold_left Z.add l a = a + sum_int l.
Proof.
  unfold sum_int. induction l as [|x l IH]; intros a; cbn [fold_left]; [lia|].
  rewrite (IH (a + x)), (IH (0 + x)). lia.
Qed.

Lemma sum_int_cons x l : sum_int (x :: l) = x + sum_int l.
Proof. unfold sum_int at 1. simpl. apply sum_int_from. Qed.

Lemma sum_int_Permutation l l' : l ≡ₚ l' -> sum_int l = sum_int l'.
Proof.
  induction 1 as [|x l l' _ IH|x y l|l1 l2 l3 _ IH1 _ IH2].
  - reflexivity.
  - rewrite !sum_int_cons, IH. reflexivity.
  - rewrite !sum_int_cons. lia.
  - congruence.
Qed.

Lemma omap_Permutation_run {B} (f : run -> option B) l l' :
  l ≡ₚ l' -> omap f l ≡ₚ omap f l'.
Proof.
  induction 1 as [|x l l' _ IH|x y l|l1 l2 l3 _ IH1 _ IH2].
  - reflexivity.
  - rewrite !omap_cons. destruct (f x); [constructor|]; exact IH.
  - rewrite !omap_cons. destruct (f x), (f y); try reflexivity. apply perm_swap.
  - etransitivity; eassumption.
Qed.

Lemma list_min_Permutation c cs c' cs' :
  c :: cs ≡ₚ c' :: cs' -> list_min c cs = list_min c' cs'.
Proof.
  intros Hp.
  destruct (list_min_spec cs c) as [Hin Hlo], (list_min_spec cs' c') as [Hin' Hlo'].
  rewrite Forall_forall in Hlo, Hlo'.
  apply (Permutation_in _ Hp) in Hin. apply (Permutation_in _ (Permutation_sym Hp)) in Hin'.
  apply list_elem_of_In in Hin, Hin'.
  specialize (Hlo _ Hin'). specialize (Hlo' _ Hin). lia.
Qed.

Lemma list_max_Permutation c cs c' cs' :
  c :: cs ≡ₚ c' :: cs' -> list_max c cs = list_max c' cs'.
Proof.
  intros Hp.
  destruct (list_max_spec cs c) as [Hin Hhi], (list_max_spec cs' c') as [Hin' Hhi'].
  rewrite Forall_forall in Hhi, Hhi'.
  apply (Permutation_in _ Hp) in Hin. apply (Permutation_in _ (Permutation_sym Hp)) in Hin'.
  apply list_elem_of_In in Hin, Hin'.
  specialize (Hhi _ Hin'). specialize (Hhi' _ Hin). lia.
Qed.

(** The order of the runs does not matter to the count statistics:
    when [calculate_statistics] returns on a list and on a
    rearrangement of it, [mean_correct], [min_correct], [max_correct]
    and [all_runs_parsed] are the same. *)
Theorem statistics_order_independent (psum : list pynum -> result pynum)
    (runs runs' : list run) (st st' : summary) :
  runs ≡ₚ runs' ->
  calculate_statistics psum runs = Ok st ->
  calculate_statistics psum runs' = Ok st' ->
  mean_correct st' = mean_correct st
  /\ min_correct st' = min_correct st
  /\ max_correct st' = max_correct st
  /\ all_runs_parsed st' = all_runs_parsed st.
Proof.
  intros Hp H H'. unfold calculate_statistics in H, H'.
  pose proof (omap_Permutation_run correct _ _ Hp) as Hcs.
  pose proof (Permutation_length Hp) as Hlen.
  pose proof (Permutation_length Hcs) as Hclen.
  pose proof (sum_int_Permutation _ _ Hcs) as Hsum.
  destruct (omap correct runs) as [|c cs] eqn:E, (omap correct runs') as [|c' cs'] eqn:E';
    try discriminate.
  - injection H as <-. injection H' as <-. auto.
  - rewrite <- Hsum, <- Hclen, <- Hlen in H'.
    destruct (int_true_div _ _) as [mc|]; [|discriminate]. cbn [rbind] in H, H'.
    destruct (psum (omap percentage runs)) as [sp|]; [|discriminate].
    destruct (psum (omap percentage runs')) as [sp'|]; [|discriminate].
    cbn [rbind] in H, H'.
    destruct (py_div_len sp _) as [mp|]; [|discriminate].
    destruct (py_div_len sp' _) as [mp'|]; [|discriminate].
    cbn [rbind] in H, H'. injection H as <-. injection H' as <-.
    cbn [mean_correct min_correct max_correct all_runs_parsed].
    rewrite (list_min_Permutation _ _ _ _ Hcs), (list_max_Permutation _ _ _ _ Hcs).
    auto.
Qed.

Lemma statistics_order_independent_witness :
  let runs := [Sample.run_8; Sample.run_none; Sample.run_7] in
  let runs' := [Sample.run_7; Sample.run_8; Sample.run_none] in
  runs ≡ₚ runs'
  /\ calculate_statistics sum_left_to_right runs = Ok Sample.judge_summary
  /\ calculate_statistics sum_left_to_right runs' = Ok Sample.judge_summary
  /\ mean_correct Sample.judge_summary = mean_correct Sample.judge_summary
  /\ min_correct Sample.judge_summary = min_correct Sample.judge_summary
  /\ max_correct Sample.judge_summary = max_correct Sample.judge_summary
  /\ all_runs_parsed Sample.judge_summary = all_runs_parsed Sample.judge_summary.
Proof.
  intros runs runs'.
  assert (runs ≡ₚ runs') as Hp.
  { subst runs runs'.
    apply (Permutation_cons_app [Sample.run_7] [Sample.run_none] Sample.run_8).
    apply perm_swap. }
  assert (calculate_statistics sum_left_to_right runs = Ok Sample.judge_summary) as H
    by (vm_compute; reflexivity).
  assert (calculate_statistics sum_left_to_right runs' = Ok Sample.judge_summary) as H'
    by (vm_compute; reflexivity).
  split; [exact Hp|]. split; [exact H|]. split; [exact H'|].
  exact (statistics_order_independent sum_left_to_right runs runs'
           Sample.judge_summary Sample.judge_summary Hp H H').
Defined.

Lemma float_of_int_raises z e : float_of_int z = Raise e -> e = OverflowError.
Proof. unfold float_of_int. destruct (_ <=? _); congruence. Qed.

(** On the runs that [parse_score] returns, the statistics never
    divide by zero: with the plain summation, [calculate_statistics]
    can only raise [OverflowError], and it returns when there are fewer
    than [2^20] runs with scores below [2^1000]. *)
Theorem statistics_on_parsed_runs (runs : list run) :
  Forall (fun r => exists text, parse_score text = Ok r) runs ->
  (forall e, calculate_statistics sum_left_to_right runs = Raise e -> e = OverflowError)
  /\ (Forall (fun c => c < 2 ^ 1000) (omap correct runs) ->
      (length runs < 2 ^ 20)%nat ->
      exists st, calculate_statistics sum_left_to_right runs = Ok st).
Proof.
  intros Hruns. split; [|apply calculate_statistics_returns; exact Hruns].
  intros e H. destruct (runs_shape runs Hruns) as (Hplain & _ & Hsame).
  unfold calculate_statistics in H.
  destruct (omap correct runs) as [|c cs] eqn:Ecs; [discriminate|].
  destruct (int_true_div (sum_int (c :: cs)) _) as [mc|e1] eqn:E1; cbn [rbind] in H.
  2:{ injection H as <-. apply int_true_div_raises in E1; [exact E1|]. simpl. lia. }
  unfold sum_left_to_right in H.
  destruct (sum_from_plain (omap percentage runs) (PInt 0)) as (sp & Hsp & Hpl);
    [left; reflexivity|exact Hplain|].
  rewrite Hsp, Hsame in H. cbn [rbind] in H.
  destruct (py_div_len sp (length (c :: cs))) as [mp|e2] eqn:E2; cbn [rbind] in H;
    [discriminate|].
  injection H as <-. unfold py_div_len in E2. destruct Hpl as [->|[f ->]].
  - apply int_true_div_raises in E2; [exact E2|]. simpl. lia.
  - cbn [length Nat.eqb] in E2.
    destruct (float_of_int _) as [d|e3] eqn:E3; cbn [rbind] in E2; [discriminate|].
    injection E2 as <-. exact (float_of_int_raises _ _ E3).
Qed.

Lemma statistics_on_parsed_runs_witness :
  let runs := [Sample.run_8; Sample.run_none; Sample.run_7] in
  Forall (fun r => exists text, parse_score text = Ok r) runs
  /\ (forall e, calculate_statistics sum_left_to_right runs = Raise e -> e = OverflowError)
  /\ (Forall (fun c => c < 2 ^ 1000) (omap correct runs) ->
      (length runs < 2 ^ 20)%nat ->
      exists st, calculate_statistics sum_left_to_right runs = Ok st).
Proof.
  intros runs.
  assert (Forall (fun r => exists text, parse_score text = Ok r) runs) as H.
  { repeat constructor.
    - exists (u "8 out of 10 answers are correct."). vm_compute. reflexivity.
    - exists (u "I am unable to grade this."). vm_compute. reflexivity.
    - exists (u "7 out of 10"). vm_compute. reflexivity. }
  split; [exact H|]. exact (statistics_on_parsed_runs runs H).
Defined.

End StatisticsMore.

(** ** The scoring run as a whole *)

Section ScoringRun.

Import Judge.

Variable w : world.
Variable psum : list pynum -> result pynum.

#[local] Open Scope eff_scope.

Lemma for_each_bounds {E A B} (P : E -> Prop) (k : nat) (body : B -> A -> M E B) :
  (forall acc x tr res tr',
      body acc x tr = (res, tr') ->
      exists new,
        tr' = tr ++ new /\ Forall P new /\ (length new <= k)%nat
        /\ (forall a, res = Ok a -> (1 <= length new)%nat)) ->
  forall l acc tr res tr',
    for_each l body acc tr = (res, tr') ->
    exists new,
      tr' = tr ++ new /\ Forall P new /\ (length new <= k * length l)%nat
      /\ (forall a, res = Ok a -> (length l <= length new)%nat).
Proof.
  intros Hbody. induction l as [|x l IH]; intros acc tr res tr' H; cbn [for_each] in H.
  - injection H as <- <-. exists []. rewrite app_nil_r.
    repeat split; [constructor|simpl; lia|simpl; lia].
  - unfold bind in H. destruct (body acc x tr) as [[acc1|e] tr1] eqn:Hb.
    + destruct (Hbody _ _ _ _ _ Hb) as (new1 & -> & H1 & Hk & Hok).
      destruct (IH _ _ _ _ H) as (new2 & -> & H2 & Hk2 & Hok2).
      specialize (Hok acc1 eq_refl).
      exists (new1 ++ new2). rewrite app_assoc, length_app. cbn [length].
      repeat split; [apply Forall_app; split; assumption|lia|].
      intros a Ha. specialize (Hok2 a Ha). lia.
    + injection H as <- <-.
      destruct (Hbody _ _ _ _ _ Hb) as (new1 & -> & H1 & Hk & _).
      exists new1. cbn [length]. repeat split; [assumption|lia|discriminate].
Qed.

Lemma all_api_calls (Q : call -> Prop) (new : list event) :
  Forall (fun e => exists c, e = Api c /\ Q c) new ->
  exists calls, new = map Api calls /\ Forall Q calls.
Proof.
  induction 1 as [|e new (c & -> & Hc) _ (calls & -> & Hcalls)].
  - exists []. split; [reflexivity|constructor].
  - exists (c :: calls). split; [reflexivity|constructor; assumption].
Qed.

(** A judge invocation makes one or two calls, each with the arguments
    of the run, on the API family of the configuration. *)
Lemma evaluate_results_events config results_file content tr res tr' :
  read_file w results_file = Ok content ->
  evaluate_results w config content tr = (res, tr') ->
  exists new,
    tr' = tr ++ new
    /\ Forall (fun e => exists c, e = Api c /\ judge_call_ok w config results_file c) new
    /\ (length new <= 2)%nat
    /\ (1 <= length new)%nat.
Proof.
  intros Hread. unfold evaluate_results.
  assert (forall c, call_args c = JudgeArgs (get_none config "model") EVALUATION_PROMPT content ->
            is_messages c = is_str (get_none config "api") "anthropic" ->
            exists c', Api c = Api c' /\ judge_call_ok w config results_file c') as Hcall.
  { intros c Hargs Hfam. exists c. split; [reflexivity|].
    unfold judge_call_ok. rewrite Hargs, Hread. cbn. auto. }
  destruct (is_str (get_none config "api") "anthropic") eqn:Hapi.
  - unfold evaluate_with_anthropic, try_except, bind, perform, ret, consume.
    destruct (anthropic_stream w tr _) as [tokens [e|]]; cbv beta iota.
    + destruct (anthropic_create w _ _); intros [= <- <-]; rewrite <- app_assoc;
        (eexists; split; [reflexivity|]; split; [|simpl; lia]);
        repeat constructor; apply Hcall; reflexivity.
    + intros [= <- <-]. eexists. split; [reflexivity|]. split; [|simpl; lia].
      repeat constructor; apply Hcall; reflexivity.
  - unfold evaluate_with_local, try_except, bind, perform, ret, consume.
    destruct (local_stream w tr _) as [chunks [e|]]; cbv beta iota.
    + intros [= <- <-]; rewrite <- app_assoc;
        (eexists; split; [reflexivity|]; split; [|simpl; lia]);
        repeat constructor; apply Hcall; reflexivity.
    + intros [= <- <-]. eexists. split; [reflexivity|]. split; [|simpl; lia].
      repeat constructor; apply Hcall; reflexivity.
Qed.

(** The shape of every scoring run. *)
Lemma score_run_shape config results_file tr res tr' :
  score_results_file w psum config results_file tr = (res, tr') ->
  exists calls,
    Forall (judge_call_ok w config results_file) calls
    /\ (forall indices,
          range (get config "repetitions" (YInt 3)) = Ok indices ->
          (length calls <= 2 * length indices)%nat)
    /\ match res with
       | Raise _ => tr' = tr ++ map Api calls
       | Ok out =>
           tr' = tr ++ map Api calls ++ [WriteScores results_file out]
           /\ calculate_statistics psum (out_runs out) = Ok (out_summary out)
           /\ out_metadata out =
                {| md_timestamp := now_isoformat w;
                   md_results_file := path_str w results_file;
                   md_scoring_api := get_none config "api";
                   md_scoring_model := get_none config "model";
                   md_repetitions := get config "repetitions" (YInt 3) |}
           /\ (forall indices,
                 range (get config "repetitions" (YInt 3)) = Ok indices ->
                 (length indices <= length calls)%nat)
       end.
Proof.
  intros H. unfold score_results_file in H.
  assert (forall e, (Raise e : result output, tr) = (res, tr') ->
            exists calls,
              Forall (judge_call_ok w config results_file) calls
              /\ (forall indices,
                    range (get config "repetitions" (YInt 3)) = Ok indices ->
                    (length calls <= 2 * length indices)%nat)
              /\ match res with
                 | Raise _ => tr' = tr ++ map Api calls
                 | Ok out =>
                     tr' = tr ++ map Api calls ++ [WriteScores results_file out]
                     /\ calculate_statistics psum (out_runs out) = Ok (out_summary out)
                     /\ out_metadata out =
                          {| md_timestamp := now_isoformat w;
                             md_results_file := path_str w results_file;
                             md_scoring_api := get_none config "api";
                             md_scoring_model := get_none config "model";
                             md_repetitions := get config "repetitions" (YInt 3) |}
                     /\ (forall indices,
                           range (get config "repetitions" (YInt 3)) = Ok indices ->
                           (length indices <= length calls)%nat)
                 end) as Hnow.
  { intros e [= <- <-]. exists []. simpl. rewrite app_nil_r.
    repeat split; [constructor|intros; lia]. }
  destruct (exists_file w results_file); cbn [negb] in H; [|exact (Hnow _ H)].
  unfold bind, lift, emit, ret in H.
  destruct (read_file w results_file) as [content|] eqn:Hread; [|exact (Hnow _ H)].
  destruct (create_client w config); [|exact (Hnow _ H)].
  destruct (range (get config "repetitions" (YInt 3))) as [indices|] eqn:Hrange;
    [|exact (Hnow _ H)].
  clear Hnow.
  match type of H with
  | context [for_each ?l ?body ?acc ?t] =>
      destruct (for_each l body acc t) as [res1 tr1] eqn:Hloop;
      apply (for_each_bounds
               (fun e => exists c, e = Api c /\ judge_call_ok w config results_file c) 2)
        in Hloop
  end.
  - destruct Hloop as (new & -> & Hall & Hk & Hok).
    apply all_api_calls in Hall as (calls & -> & Hcalls). rewrite length_map in Hk, Hok.
    exists calls. split; [exact Hcalls|]. split.
    { intros ? [= <-]. exact Hk. }
    destruct res1 as [runs|e]; [|injection H as <- <-; reflexivity].
    specialize (Hok runs eq_refl).
    destruct (calculate_statistics psum runs) as [stats|] eqn:Hstats;
      [|injection H as <- <-; reflexivity].
    injection H as <- <-. cbn [out_runs out_summary out_metadata].
    rewrite <- app_assoc. repeat split; auto.
    intros ? [= <-]. exact Hok.
  - intros acc x t res2 t2 Hb. unfold bind, lift, ret in Hb.
    destruct (evaluate_results w config content t) as [reply t1] eqn:Hev.
    destruct (evaluate_results_events _ _ _ _ _ _ Hread Hev) as (new & -> & Hall & Hle & Hge).
    exists new. assert (t2 = t ++ new) as ->.
    { destruct reply as [reply|]; [|injection Hb as <- <-; reflexivity].
      destruct (parse_reply reply); injection Hb as <- <-; reflexivity. }
    repeat split; auto.
Qed.

(** A scoring run with a setup error, no results file, an unreadable
    one, no client, or a repetition count that is no integer, raises
    before any judge call and writes nothing. *)
Theorem scoring_setup_errors_abort (config : dict) (results_file : str)
    (tr : list event) :
  scoring_setup_error w config results_file ->
  exists e, score_results_file w psum config results_file tr = (Raise e, tr).
Proof.
  intros Hsetup. unfold score_results_file, bind, lift.
  destruct (exists_file w results_file) eqn:Hex; cbn [negb]; [|eauto].
  destruct (read_file w results_file) as [content|] eqn:Hread; [|eauto].
  destruct (create_client w config) as [c|] eqn:Hc; [|eauto].
  destruct (range (get config "repetitions" (YInt 3))) as [indices|] eqn:Hr; [|eauto].
  exfalso. destruct Hsetup as [H|[[e H]|[[e H]|[e H]]]]; congruence.
Qed.


(** Every judge call of a scoring run carries the configured model, the
    evaluation prompt and the text of the results file, and goes to the
    API family of the configuration; with [R] repetitions at most [2R]
    calls are made, and at least [R] by a run that completes. *)
Theorem judge_calls_uniform (config : dict) (results_file : str)
    (tr tr' : list event) (res : result output) (indices : list nat) :
  score_results_file w psum config results_file tr = (res, tr') ->
  range (get config "repetitions" (YInt 3)) = Ok indices ->
  exists calls rest,
    tr' = tr ++ map Api calls ++ rest
    /\ Forall (fun e => is_write_scores e = true) rest
    /\ Forall (judge_call_ok w config results_file) calls
    /\ (length calls <= 2 * length indices)%nat
    /\ (forall out, res = Ok out -> (length indices <= length calls)%nat).
Proof.
  intros H Hrange. apply score_run_shape in H as (calls & Hcalls & Hle & Hres).
  destruct res as [out|e].
  - destruct Hres as (-> & _ & _ & Hge).
    exists calls, [WriteScores results_file out].
    repeat split; auto; try solve [repeat constructor].
  - subst tr'. exists calls, []. rewrite app_nil_r.
    repeat split; auto; try solve [constructor|discriminate].
Qed.

(** The document of a completed run is consistent: its summary is the
    statistics of its own runs, and its metadata repeat the model, the
    API and the repetition count of the configuration. *)
Theorem summary_from_runs (config : dict) (results_file : str)
    (tr tr' : list event) (out : output) :
  score_results_file w psum config results_file tr = (Ok out, tr') ->
  calculate_statistics psum (out_runs out) = Ok (out_summary out)
  /\ md_scoring_api (out_metadata out) = get_none config "api"
  /\ md_scoring_model (out_metadata out) = get_none config "model"
  /\ md_repetitions (out_metadata out) = get config "repetitions" (YInt 3).
Proof.
  intros H. apply score_run_shape in H as (calls & _ & _ & _ & Hstats & -> & _).
  auto.
Qed.

Variable safe_load : str -> result json_value.



End ScoringRun.

(** ** The test-suite run as a whole *)

Section SuiteRun.

Import Suite.

Variable w : world.
Variable format_filename : document -> document -> str -> result str.

#[local] Open Scope eff_scope.

Lemma prompt_request model_config prompt_config question tr res tr' :
  prompt w model_config prompt_config question tr = (res, tr') ->
  (tr' = tr /\ exists e, res = Raise e)
  \/ exists rq,
       tr' = tr ++ [Generate rq]
       /\ configured model_config prompt_config rq
       /\ rq_question rq = question
       /\ res = completion w tr rq.
Proof.
  unfold prompt, bind, lift, perform. intros H.
  destruct model_config; simpl in H; try solve [injection H as <- <-; left; eauto].
  destruct prompt_config; simpl in H; try solve [injection H as <- <-; left; eauto].
  injection H as <- <-. right. eexists. split; [reflexivity|].
  split; [|split; reflexivity].
  eexists _, _. repeat split; reflexivity.
Qed.

(** A row is passed without a call, on a column that is missing or a
    configuration that is no mapping, or with exactly one call, for the
    question of the row; the block of the row holds the reply to it. *)
Lemma process_row_calls model_config prompt_config out0 n0 r tr res tr' :
  process_row w model_config prompt_config (out0, n0) r tr = (res, tr') ->
  (tr' = tr /\ exists e, res = Raise e)
  \/ exists rq,
       tr' = tr ++ [Generate rq]
       /\ configured model_config prompt_config rq
       /\ rq_question rq = column r "Question"
       /\ match res with
          | Ok (out, n) =>
              exists answer,
                completion w tr rq = Ok answer
                /\ out = out0 ++ block_of r answer
                /\ n = S n0
                /\ well_formed r
          | Raise e => completion w tr rq = Raise e
          end.
Proof.
  unfold process_row, bind, lift, ret. intros H.
  destruct (field r "ID") as [qid|] eqn:E1; [|injection H as <- <-; left; eauto].
  destruct (field r "Section") as [sec|] eqn:E2; [|injection H as <- <-; left; eauto].
  destruct (field r "Question") as [q|] eqn:E3; [|injection H as <- <-; left; eauto].
  destruct (field r "ExpectedAnswer") as [ea|] eqn:E4;
    [|injection H as <- <-; left; eauto].
  destruct (prompt w model_config prompt_config q tr) as [res1 tr1] eqn:Hp.
  apply field_column in E1 as [W1 C1], E2 as [W2 C2], E3 as [W3 C3], E4 as [W4 C4].
  apply prompt_request in Hp as [[-> [e ->]]|(rq & -> & Hc & Hq & ->)].
  - left. injection H as <- <-. eauto.
  - right. exists rq. split; [|split; [exact Hc|split; [congruence|]]].
    + destruct (completion w tr rq); injection H as <- <-; reflexivity.
    + destruct (completion w tr rq) as [answer|e]; injection H as <- <-; [|reflexivity].
      exists answer. rewrite (block_spec r qid sec q ea answer C1 C2 C3 C4).
      repeat split; assumption.
Qed.

(** The loop over the rows: one call per row, in the order of the rows,
    up to the first row that fails; when it comes to its end, the
    output has grown by the block of every row. *)
Lemma rows_calls model_config prompt_config rows :
  forall out0 n0 tr res tr',
    for_each rows (process_row w model_config prompt_config) (out0, n0) tr = (res, tr') ->
    exists calls,
      tr' = tr ++ map Generate calls
      /\ Forall (configured model_config prompt_config) calls
      /\ map rq_question calls `prefix_of` map (fun r => column r "Question") rows
      /\ match res with
         | Ok (out, n) =>
             exists answers,
               length calls = length rows
               /\ length answers = length rows
               /\ replies w tr calls answers
               /\ out = out0 ++ concat (zip_with block_of rows answers)
               /\ Forall well_formed rows
         | Raise _ => True
         end.
Proof.
  induction rows as [|r rows IH]; intros out0 n0 tr res tr' H; cbn [for_each] in H.
  - injection H as <- <-. exists []. cbn [map]. rewrite app_nil_r.
    split; [reflexivity|]. split; [constructor|]. split; [apply prefix_nil|].
    exists []. cbn. rewrite app_nil_r. repeat split; constructor.
  - unfold bind in H.
    destruct (process_row w model_config prompt_config (out0, n0) r tr)
      as [res1 tr1] eqn:Hrow.
    apply process_row_calls in Hrow as [[-> [e ->]]|(rq & -> & Hc & Hq & Hres)].
    + injection H as <- <-. exists []. cbn [map]. rewrite app_nil_r.
      split; [reflexivity|]. split; [constructor|]. split; [apply prefix_nil|exact I].
    + destruct res1 as [[out1 n1]|e].
      * destruct Hres as (answer & Hreply & -> & -> & Hwf).
        apply IH in H as (calls & -> & Hall & Hpre & Hok).
        exists (rq :: calls). rewrite <- app_assoc. cbn [map app length].
        split; [reflexivity|]. split; [constructor; assumption|]. split.
        -- rewrite Hq. apply prefix_cons. exact Hpre.
        -- destruct res as [[out n]|e]; [|exact I].
           destruct Hok as (answers & Hlen & Hans & Hrep & -> & Hwfs).
           exists (answer :: answers). cbn [length zip_with concat replies].
           rewrite Hlen, Hans, <- !app_assoc. repeat split; auto.
      * injection H as <- <-. exists [rq]. cbn [map].
        split; [reflexivity|]. split; [repeat constructor; assumption|]. split.
        -- rewrite Hq. apply prefix_cons, prefix_nil.
        -- exact I.
Qed.

Lemma process_questions_calls model_config prompt_config source tr res tr' :
  process_questions w model_config prompt_config source tr = (res, tr') ->
  exists calls,
    tr' = tr ++ map Generate calls
    /\ Forall (configured model_config prompt_config) calls
    /\ map rq_question calls `prefix_of` map (fun r => column r "Question") (fst source)
    /\ (forall out, res = Ok out ->
          exists answers,
            length answers = length (fst source)
            /\ length calls = length (fst source)
            /\ replies w tr calls answers
            /\ fst out = concat (zip_with block_of (fst source) answers)).
Proof.
  unfold process_questions, bind. intros H.
  destruct (for_each (fst source) (process_row w model_config prompt_config) ([], 0%nat) tr)
    as [res1 tr1] eqn:Hloop.
  apply rows_calls in Hloop as (calls & -> & Hall & Hpre & Hok).
  exists calls.
  assert (tr' = tr ++ map Generate calls) as ->
    by (destruct res1; [destruct (snd source)|]; injection H as <- <-; reflexivity).
  split; [reflexivity|]. split; [exact Hall|]. split; [exact Hpre|].
  intros out ->. destruct res1 as [[out1 n1]|e]; [|discriminate].
  destruct Hok as (answers & Hlen & Hans & Hrep & -> & _).
  destruct (snd source); [discriminate|]. injection H as <-.
  exists answers. auto.
Qed.

Lemma omap_asked_calls (calls : list request) :
  omap asked (map Generate calls) = map rq_question calls.
Proof. induction calls as [|rq calls IH]; [reflexivity|]. cbn. rewrite <- IH. reflexivity. Qed.

Lemma omap_written_calls (calls : list request) :
  omap written_file (map Generate calls) = [].
Proof. induction calls as [|rq calls IH]; [reflexivity|]. cbn. exact IH. Qed.

Lemma calls_no_write_text (calls : list request) :
  Forall (fun e => is_write_text e = false) (map Generate calls).
Proof.
  apply Forall_forall. intros ev Hev.
  apply list_elem_of_fmap in Hev as (rq & -> & _). reflexivity.
Qed.

Lemma calls_no_write_manifest (calls : list request) :
  Forall (fun e => is_write_manifest e = false) (map Generate calls).
Proof.
  apply Forall_forall. intros ev Hev.
  apply list_elem_of_fmap in Hev as (rq & -> & _). reflexivity.
Qed.

(** What the processing of one model leaves behind: nothing, for a
    model that is no mapping; the printed temperature and the calls
    made, when it fails before its transcript; or these and the
    transcript, whose writing decides the outcome. *)
Lemma process_model_shape config results_path questions_path prompt_config
    models_done model_config tr res tr' :
  process_model w format_filename config results_path questions_path prompt_config
    models_done model_config tr = (res, tr') ->
  (tr' = tr /\ exists e, res = Raise e)
  \/ exists mc calls,
       model_config = YMap mc
       /\ Forall (configured model_config prompt_config) calls
       /\ map rq_question calls
            `prefix_of` map (fun r => column r "Question") (fst (read_rows w questions_path))
       /\ ((tr' = tr ++ PrintTemperature (get mc "temperature" (YFloat 0.7))
                    :: map Generate calls
            /\ exists e, res = Raise e)
           \/ exists filename answers,
                length calls = length (fst (read_rows w questions_path))
                /\ length answers = length (fst (read_rows w questions_path))
                /\ replies w (tr ++ [PrintTemperature (get mc "temperature" (YFloat 0.7))])
                     calls answers
                /\ tr' = tr ++ PrintTemperature (get mc "temperature" (YFloat 0.7))
                           :: map Generate calls
                           ++ [WriteText (results_path ++ [filename])
                                 (concat (zip_with block_of
                                            (fst (read_rows w questions_path)) answers))]
                /\ match res with
                   | Ok entries =>
                       write_text w
                         (tr ++ PrintTemperature (get mc "temperature" (YFloat 0.7))
                             :: map Generate calls)
                         (results_path ++ [filename])
                         (concat (zip_with block_of (fst (read_rows w questions_path))
                                    answers)) = Ok tt
                       /\ entries = models_done
                            ++ [ManifestEntry (listed_name model_config)
                                  (results_path ++ [filename])]
                   | Raise e =>
                       write_text w
                         (tr ++ PrintTemperature (get mc "temperature" (YFloat 0.7))
                             :: map Generate calls)
                         (results_path ++ [filename])
                         (concat (zip_with block_of (fst (read_rows w questions_path))
                                    answers)) = Raise e
                   end).
Proof.
  unfold process_model, bind, lift, emit, perform, ret. intros H.
  destruct model_config as [| | | | | |mc|]; cbn [as_dict] in H;
    try solve [injection H as <- <-; left; eauto].
  right. exists mc.
  destruct (process_questions w (YMap mc) prompt_config (read_rows w questions_path)
              (tr ++ [PrintTemperature (get mc "temperature" (YFloat 0.7))]))
    as [res1 tr1] eqn:Hq.
  apply process_questions_calls in Hq as (calls & -> & Hall & Hpre & Hok).
  exists calls. rewrite <- app_assoc in H. cbn [app] in H.
  split; [reflexivity|]. split; [exact Hall|]. split; [exact Hpre|].
  destruct res1 as [out|e]; [|injection H as <- <-; left; eauto].
  destruct (Hok out eq_refl) as (answers & Hans & Hlen & Hrep & Hout).
  destruct (as_dict AttributeError (get config "output" (YMap ∅))) as [oc|];
    [|injection H as <- <-; left; eauto].
  destruct (format_filename _ _ _) as [filename|]; [|injection H as <- <-; left; eauto].
  right. exists filename, answers. rewrite Hout in H.
  split; [exact Hlen|]. split; [exact Hans|]. split; [exact Hrep|].
  destruct (write_text w _ _ _) as [[]|e] eqn:Hw; injection H as <- <-;
    rewrite <- app_assoc; cbn [app listed_name]; auto.
Qed.

(** What the loop over the models leaves behind. *)
Lemma models_loop config results_path questions_path prompt_config models :
  forall models_done tr res tr',
    for_each models
      (process_model w format_filename config results_path questions_path prompt_config)
      models_done tr = (res, tr') ->
    exists new,
      tr' = tr ++ new
      /\ Forall (fun e => is_write_manifest e = false) new
      /\ (forall rq, Generate rq ∈ new ->
            exists m, m ∈ models /\ configured m prompt_config rq)
      /\ (forall entries, res = Ok entries ->
            exists added,
              entries = models_done ++ added
              /\ map me_model_name added = map listed_name models
              /\ omap written_file new = map me_results_file added
              /\ length (omap asked new)
                 = (length models * length (fst (read_rows w questions_path)))%nat).
Proof.
  induction models as [|m models IH]; intros models_done tr res tr' H; cbn [for_each] in H.
  - injection H as <- <-. exists []. rewrite app_nil_r.
    split; [reflexivity|]. split; [constructor|]. split.
    + intros rq Hin. apply elem_of_nil in Hin. contradiction.
    + intros entries [= <-]. exists []. rewrite app_nil_r.
      repeat split; constructor.
  - unfold bind in H.
    destruct (process_model w format_filename config results_path questions_path
                prompt_config models_done m tr) as [res1 tr1] eqn:Hm.
    apply process_model_shape in Hm
      as [[-> [e ->]]|(mc & calls & -> & Hall & Hpre & Hres)].
    + injection H as <- <-. exists []. rewrite app_nil_r.
      split; [reflexivity|]. split; [constructor|]. split.
      * intros rq Hin. apply elem_of_nil in Hin. contradiction.
      * discriminate.
    + pose proof (calls_no_write_manifest calls) as Hnom.
      assert (forall rq, Generate rq ∈ map Generate calls ->
                exists m', m' ∈ YMap mc :: models /\ configured m' prompt_config rq) as Hcalls.
      { intros rq Hin. apply list_elem_of_fmap in Hin as (rq' & [= ->] & Hin).
        exists (YMap mc). split; [apply list_elem_of_here|].
        rewrite Forall_forall in Hall. exact (Hall _ Hin). }
      destruct Hres as [[-> [e ->]]|(filename & answers & Hlen & Hans & _ & -> & Hres)].
      * injection H as <- <-.
        exists (PrintTemperature (get mc "temperature" (YFloat 0.7)) :: map Generate calls).
        split; [reflexivity|]. split; [constructor; [reflexivity|exact Hnom]|]. split.
        -- intros rq Hin. apply elem_of_cons in Hin as [Hin|Hin]; [discriminate|].
           exact (Hcalls _ Hin).
        -- discriminate.
      * destruct res1 as [entries1|e].
        -- destruct Hres as [_ ->].
           apply IH in H as (new & -> & Hno & Hgen & Hok).
           exists (PrintTemperature (get mc "temperature" (YFloat 0.7))
                     :: map Generate calls
                     ++ [WriteText (results_path ++ [filename])
                           (concat (zip_with block_of (fst (read_rows w questions_path))
                                      answers))]
                     ++ new).
           split; [rewrite <- !app_assoc; cbn [app]; rewrite <- !app_assoc; reflexivity|].
           split.
           { constructor; [reflexivity|]. apply Forall_app. split; [exact Hnom|].
             constructor; [reflexivity|exact Hno]. }
           split.
           { intros rq Hin. apply elem_of_cons in Hin as [Hin|Hin]; [discriminate|].
             apply elem_of_app in Hin as [Hin|Hin]; [exact (Hcalls _ Hin)|].
             apply elem_of_cons in Hin as [Hin|Hin]; [discriminate|].
             destruct (Hgen _ Hin) as (m' & Hm' & Hc).
             exists m'. split; [apply list_elem_of_further; exact Hm'|exact Hc]. }
           intros entries Hentries.
           destruct (Hok _ Hentries) as (added & -> & Hnames & Hfiles & Hcount).
           exists (ManifestEntry (listed_name (YMap mc)) (results_path ++ [filename])
                     :: added).
           split; [rewrite <- app_assoc; reflexivity|].
           split; [cbn [map me_model_name]; rewrite Hnames; reflexivity|].
           split.
           { change (PrintTemperature (get mc "temperature" (YFloat 0.7))
                       :: map Generate calls ++ ?x)
               with ([PrintTemperature (get mc "temperature" (YFloat 0.7))]
                       ++ map Generate calls ++ x).
             rewrite !omap_app, omap_written_calls, Hfiles. reflexivity. }
           change (PrintTemperature (get mc "temperature" (YFloat 0.7))
                     :: map Generate calls ++ ?x)
             with ([PrintTemperature (get mc "temperature" (YFloat 0.7))]
                     ++ map Generate calls ++ x).
           rewrite !omap_app, omap_asked_calls, !length_app, !length_map, Hcount, Hlen.
           unfold omap. cbn [list_omap asked length]. lia.
        -- injection H as <- <-.
           exists (PrintTemperature (get mc "temperature" (YFloat 0.7))
                     :: map Generate calls
                     ++ [WriteText (results_path ++ [filename])
                           (concat (zip_with block_of (fst (read_rows w questions_path))
                                      answers))]).
           split; [reflexivity|]. split.
           { constructor; [reflexivity|]. apply Forall_app. split; [exact Hnom|].
             repeat constructor. }
           split; [|discriminate].
           intros rq Hin. apply elem_of_cons in Hin as [Hin|Hin]; [discriminate|].
           apply elem_of_app in Hin as [Hin|Hin]; [exact (Hcalls _ Hin)|].
           apply list_elem_of_singleton in Hin. discriminate.
Qed.

Lemma check_names_named models :
  check_names models = Ok tt ->
  Forall (fun m => exists d name, m = YMap d /\ d !! u "name" = Some name) models.
Proof.
  induction models as [|m models IH]; intros H; [constructor|].
  cbn [check_names] in H. unfold model_name_item, item in H.
  destruct m as [| | | | | |d|]; cbn [as_dict rbind] in H; try discriminate.
  destruct (d !! u "name") as [name|] eqn:Hname; cbn [rbind] in H; [|discriminate].
  constructor; [eauto|exact (IH H)].
Qed.

(** The three ways a run goes: the suite directory is missing and
    nothing happens; the setup fails after the results directory was
    made; or the loop over the models is entered, and the manifest is
    written when it comes to its end. *)
Lemma run_shape test_suite tr res tr' :
  run_test_suite w format_filename test_suite tr = (res, tr') ->
  (exists_path w [u "test_suites"; test_suite] = false
   /\ res = Raise FileNotFoundError /\ tr' = tr)
  \/ (exists_path w [u "test_suites"; test_suite] = true
      /\ (exists e, res = Raise e)
      /\ tr' = tr ++ [Mkdir [u "results"; test_suite ++ u "_" ++ now_stamp w]])
  \/ exists config models f res1 tr1,
       exists_path w [u "test_suites"; test_suite] = true
       /\ load_yaml w [u "test_suites"; test_suite; u "config.yaml"] = Ok (YMap config)
       /\ get config "models" (YSeq []) = YSeq models
       /\ check_names models = Ok tt
       /\ get config "questions_file" (YStr (u "questions.csv")) = YStr f
       /\ for_each models
            (process_model w format_filename config
               [u "results"; test_suite ++ u "_" ++ now_stamp w]
               [u "test_suites"; test_suite; f] (get config "prompt" (YMap ∅)))
            [] (tr ++ [Mkdir [u "results"; test_suite ++ u "_" ++ now_stamp w]])
          = (res1, tr1)
       /\ match res1 with
          | Ok entries =>
              tr' = tr1 ++ [WriteManifest
                              [u "results"; test_suite ++ u "_" ++ now_stamp w;
                               u "resultset.json"]
                              (Manifest (YMap config) entries)]
              /\ match res with
                 | Ok _ =>
                     dump_json w tr1
                       [u "results"; test_suite ++ u "_" ++ now_stamp w; u "resultset.json"]
                       (Manifest (YMap config) entries) = Ok tt
                     /\ dumpable (YMap config) = true
                 | Raise e =>
                     dump_json w tr1
                       [u "results"; test_suite ++ u "_" ++ now_stamp w; u "resultset.json"]
                       (Manifest (YMap config) entries) = Raise e
                     \/ (dumpable (YMap config) = false /\ e = TypeError)
                 end
          | Raise e => res = Raise e /\ tr' = tr1
          end.
Proof.
  unfold run_test_suite. intros H.
  destruct (exists_path w [u "test_suites"; test_suite]) eqn:Hdir; cbn [negb] in H.
  2:{ left. injection H as <- <-. auto. }
  right.
  unfold write_manifest, bind, emit, perform, lift, raise, ret, load_config in H.
  cbn [app] in H.
  destruct (exists_path w [u "test_suites"; test_suite; u "config.yaml"]);
    cbn [negb] in H; [|injection H as <- <-; left; eauto].
  destruct (load_yaml w [u "test_suites"; test_suite; u "config.yaml"])
    as [loaded|] eqn:Hload; [|injection H as <- <-; left; eauto].
  destruct (as_dict AttributeError loaded) as [config|] eqn:Hdict;
    [|injection H as <- <-; left; eauto].
  assert (loaded = YMap config) as -> by (destruct loaded; simpl in Hdict; congruence).
  destruct (item config "api"); [|injection H as <- <-; left; eauto].
  destruct (as_dict TypeError _); [|injection H as <- <-; left; eauto].
  destruct (item _ "base_url"); [|injection H as <- <-; left; eauto].
  destruct (truthy (get config "models" (YSeq []))); cbn [negb] in H;
    [|injection H as <- <-; left; eauto].
  destruct (get config "models" (YSeq [])) as [| | | | |models| |] eqn:Hm;
    try solve [injection H as <- <-; left; eauto].
  destruct (check_names models) as [[]|] eqn:Hnames;
    [|injection H as <- <-; left; eauto].
  destruct (create_client w config); [|injection H as <- <-; left; eauto].
  destruct (get config "questions_file" (YStr (u "questions.csv")))
    as [| | | |f| | |] eqn:Hf; try solve [injection H as <- <-; left; eauto].
  destruct (exists_path w [u "test_suites"; test_suite; f]); cbn [negb] in H;
    [|injection H as <- <-; left; eauto].
  right.
  destruct (for_each models _ [] _) as [res1 tr1] eqn:Hloop.
  exists config, models, f, res1, tr1.
  repeat (split; [first [reflexivity|assumption]|]).
  destruct res1 as [entries|e]; [|injection H as <- <-; split; reflexivity].
  cbn [mf_test_suite_config] in H.
  destruct (dump_json w tr1 _ _) as [[]|e] eqn:Hdump; cbn [rbind] in H.
  - destruct (dumpable (YMap config)) eqn:Hok; injection H as <- <-;
      (split; [reflexivity|]); auto.
  - injection H as <- <-. split; [reflexivity|]. auto.
Qed.

Lemma prefix_same_length {A} (l k : list A) :
  l `prefix_of` k -> length l = length k -> l = k.
Proof.
  intros [rest ->] Hlen. rewrite length_app in Hlen.
  destruct rest; [symmetry; apply app_nil_r|simpl in Hlen; lia].
Qed.

(** The transcript of a model is written in one step, after all its
    questions were answered: it holds one block of the specification
    per row of the question source, in the order of the rows, each with
    the reply to the generation call for its row.  A model whose
    processing raises has either begun no transcript, or has raised in
    writing the complete one; it is listed only when the write
    returns. *)
Theorem transcript_all_or_nothing (config : dict) (results_path questions_path : path)
    (prompt_config : yaml) (models_done : list manifest_entry) (model_config : yaml)
    (tr tr' : list event) (res : result (list manifest_entry)) :
  process_model w format_filename config results_path questions_path prompt_config
    models_done model_config tr = (res, tr') ->
  (exists new e,
     res = Raise e /\ tr' = tr ++ new /\ Forall (fun ev => is_write_text ev = false) new)
  \/ exists t calls answers filename,
       let rows := fst (read_rows w questions_path) in
       let content := concat (zip_with block_of rows answers) in
       let before := tr ++ PrintTemperature t :: map Generate calls in
       tr' = before ++ [WriteText (results_path ++ [filename]) content]
       /\ length answers = length rows
       /\ map rq_question calls = map (fun r => column r "Question") rows
       /\ replies w (tr ++ [PrintTemperature t]) calls answers
       /\ match res with
          | Ok entries =>
              write_text w before (results_path ++ [filename]) content = Ok tt
              /\ entries = models_done
                   ++ [ManifestEntry (listed_name model_config) (results_path ++ [filename])]
          | Raise e => write_text w before (results_path ++ [filename]) content = Raise e
          end.
Proof.
  intros H.
  apply process_model_shape in H as [[-> [e ->]]|(mc & calls & -> & _ & Hpre & Hres)].
  - left. exists [], e. rewrite app_nil_r. repeat split. constructor.
  - destruct Hres as [[-> [e ->]]|(filename & answers & Hlen & Hans & Hrep & -> & Hres)].
    + left. eexists _, e. split; [reflexivity|]. split; [reflexivity|].
      constructor; [reflexivity|apply calls_no_write_text].
    + right. exists (get mc "temperature" (YFloat 0.7)), calls, answers, filename.
      cbv zeta. split; [rewrite <- app_assoc; reflexivity|].
      split; [exact Hans|]. split; [|split; [exact Hrep|exact Hres]].
      apply prefix_same_length; [exact Hpre|]. rewrite !length_map. exact Hlen.
Qed.


(** The manifest is begun only as the last step of a run, when every
    configured model has been processed and its transcript written,
    and the run completes exactly when that write returns.  The
    manifest holds the configuration as loaded and one entry per
    configured model, in the order of the configuration, each with the
    name of the model and the transcript written for it.  On a
    configuration that holds a date, bytes or a set the write raises,
    so that such a run never completes. *)
Theorem manifest_lists_models (test_suite : str) (tr tr' : list event)
    (res : result unit) :
  run_test_suite w format_filename test_suite tr = (res, tr') ->
  (exists new e,
     res = Raise e /\ tr' = tr ++ new
     /\ Forall (fun ev => is_write_manifest ev = false) new)
  \/ exists new config models entries,
       let p := [u "results"; test_suite ++ u "_" ++ now_stamp w; u "resultset.json"] in
       let m := Manifest (YMap config) entries in
       tr' = tr ++ new ++ [WriteManifest p m]
       /\ Forall (fun ev => is_write_manifest ev = false) new
       /\ load_yaml w [u "test_suites"; test_suite; u "config.yaml"] = Ok (YMap config)
       /\ get config "models" (YSeq []) = YSeq models
       /\ map me_model_name entries = map listed_name models
       /\ omap written_file new = map me_results_file entries
       /\ match res with
          | Ok _ => dump_json w (tr ++ new) p m = Ok tt /\ dumpable (YMap config) = true
          | Raise e =>
              dump_json w (tr ++ new) p m = Raise e
              \/ (dumpable (YMap config) = false /\ e = TypeError)
          end.
Proof.
  intros H.
  apply run_shape in H
    as [(_ & -> & ->)|[(_ & [e ->] & ->)
                      |(config & models & f & res1 & tr1 & _ & Hload & Hm & _ & _ & Hloop & Hres)]].
  - left. exists [], FileNotFoundError. rewrite app_nil_r. repeat split. constructor.
  - left. eexists _, e. repeat split. repeat constructor.
  - apply models_loop in Hloop as (new & -> & Hno & _ & Hok).
    destruct res1 as [entries|e].
    + right. destruct Hres as [-> Hres].
      destruct (Hok _ eq_refl) as (added & -> & Hnames & Hfiles & _).
      exists (Mkdir [u "results"; test_suite ++ u "_" ++ now_stamp w] :: new),
        config, models, added.
      cbv zeta. split; [rewrite <- !app_assoc; reflexivity|].
      split; [constructor; [reflexivity|exact Hno]|].
      split; [exact Hload|]. split; [exact Hm|]. split; [exact Hnames|].
      split; [exact Hfiles|].
      rewrite <- app_assoc in Hres. exact Hres.
    + left. destruct Hres as [-> ->].
      exists (Mkdir [u "results"; test_suite ++ u "_" ++ now_stamp w] :: new), e.
      split; [reflexivity|]. split; [rewrite <- app_assoc; reflexivity|].
      constructor; [reflexivity|exact Hno].
Qed.

(** A run that completes has made one generation call per model and
    row of the question source, and has begun one transcript per
    model. *)
Theorem generation_count (test_suite : str) (tr tr' : list event) :
  run_test_suite w format_filename test_suite tr = (Ok tt, tr') ->
  exists new config models f,
    tr' = tr ++ new
    /\ load_yaml w [u "test_suites"; test_suite; u "config.yaml"] = Ok (YMap config)
    /\ get config "models" (YSeq []) = YSeq models
    /\ get config "questions_file" (YStr (u "questions.csv")) = YStr f
    /\ length (omap asked new)
       = (length models
          * length (fst (read_rows w [u "test_suites"; test_suite; f])))%nat
    /\ length (omap written_file new) = length models.
Proof.
  intros H.
  apply run_shape in H
    as [(_ & [=] & _)|[(_ & [e [=]] & _)
                      |(config & models & f & res1 & tr1 & _ & Hload & Hm & _ & Hf & Hloop & Hres)]].
  apply models_loop in Hloop as (new & -> & _ & _ & Hok).
  destruct res1 as [entries|e]; [|destruct Hres as [[=] _]].
  destruct Hres as [-> _].
  destruct (Hok _ eq_refl) as (added & _ & Hnames & Hfiles & Hcount).
  exists (Mkdir [u "results"; test_suite ++ u "_" ++ now_stamp w] :: new
          ++ [WriteManifest
                [u "results"; test_suite ++ u "_" ++ now_stamp w; u "resultset.json"]
                (Manifest (YMap config) entries)]),
    config, models, f.
  split; [rewrite <- !app_assoc; reflexivity|].
  repeat (split; [assumption|]).
  assert (forall A (g : event -> option A),
            g (Mkdir [u "results"; test_suite ++ u "_" ++ now_stamp w]) = None ->
            g (WriteManifest
                 [u "results"; test_suite ++ u "_" ++ now_stamp w; u "resultset.json"]
                 (Manifest (YMap config) entries)) = None ->
            omap g (Mkdir [u "results"; test_suite ++ u "_" ++ now_stamp w] :: new
                    ++ [WriteManifest
                          [u "results"; test_suite ++ u "_" ++ now_stamp w;
                           u "resultset.json"]
                          (Manifest (YMap config) entries)])
            = omap g new) as Hends.
  { intros A g H1 H2. rewrite omap_cons, H1, omap_app. unfold omap at 2.
    cbn [list_omap]. rewrite H2. apply app_nil_r. }
  rewrite !Hends by reflexivity.
  split; [exact Hcount|]. rewrite Hfiles.
  rewrite length_map. apply (f_equal length) in Hnames.
  rewrite !length_map in Hnames. exact Hnames.
Qed.

(** Every generation call of a run names a model of the configuration:
    a run gets to its calls only when every configured model is a
    mapping with a [name], so the default names of [prompt] and of the
    model loop are never used. *)
Theorem calls_name_configured_models (test_suite : str) (tr tr' : list event)
    (res : result unit) :
  run_test_suite w format_filename test_suite tr = (res, tr') ->
  exists new,
    tr' = tr ++ new
    /\ forall rq,
         Generate rq ∈ new ->
         exists config models d,
           load_yaml w [u "test_suites"; test_suite; u "config.yaml"] = Ok (YMap config)
           /\ get config "models" (YSeq []) = YSeq models
           /\ Forall (fun m => exists d' name, m = YMap d' /\ d' !! u "name" = Some name)
                models
           /\ YMap d ∈ models
           /\ d !! u "name" = Some (rq_model rq)
           /\ rq_temperature rq = get d "temperature" (YFloat 0).
Proof.
  intros H.
  apply run_shape in H
    as [(_ & -> & ->)|[(_ & [e ->] & ->)
                      |(config & models & f & res1 & tr1 & _ & Hload & Hm & Hnames & _ & Hloop & Hres)]].
  - exists []. rewrite app_nil_r. split; [reflexivity|].
    intros rq Hin. apply elem_of_nil in Hin. contradiction.
  - eexists. split; [reflexivity|].
    intros rq Hin. apply list_elem_of_singleton in Hin. discriminate.
  - apply models_loop in Hloop as (new & -> & _ & Hgen & _).
    apply check_names_named in Hnames.
    assert (forall rq, Generate rq ∈ new ->
              exists config models d,
                load_yaml w [u "test_suites"; test_suite; u "config.yaml"]
                  = Ok (YMap config)
                /\ get config "models" (YSeq []) = YSeq models
                /\ Forall (fun m => exists d' name,
                             m = YMap d' /\ d' !! u "name" = Some name) models
                /\ YMap d ∈ models
                /\ d !! u "name" = Some (rq_model rq)
                /\ rq_temperature rq = get d "temperature" (YFloat 0)) as Hall.
    { intros rq Hin. destruct (Hgen _ Hin) as (m & Hmem & mc & pc & -> & _ & Hname & _ & Ht).
      exists config, models, mc. repeat (split; [assumption|]).
      split; [|exact Ht].
      rewrite Forall_forall in Hnames.
      destruct (Hnames _ Hmem) as (d' & name & [= <-] & Hd).
      rewrite Hname. unfold get. rewrite Hd. reflexivity. }
    destruct res1 as [entries|e].
    + destruct Hres as [-> _].
      exists (Mkdir [u "results"; test_suite ++ u "_" ++ now_stamp w] :: new
              ++ [WriteManifest
                    [u "results"; test_suite ++ u "_" ++ now_stamp w; u "resultset.json"]
                    (Manifest (YMap config) entries)]).
      split; [rewrite <- !app_assoc; reflexivity|].
      intros rq Hin. apply elem_of_cons in Hin as [Hin|Hin]; [discriminate|].
      apply elem_of_app in Hin as [Hin|Hin]; [exact (Hall _ Hin)|].
      apply list_elem_of_singleton in Hin. discriminate.
    + destruct Hres as [_ ->].
      exists (Mkdir [u "results"; test_suite ++ u "_" ++ now_stamp w] :: new).
      split; [rewrite <- !app_assoc; reflexivity|].
      intros rq Hin. apply elem_of_cons in Hin as [Hin|Hin]; [discriminate|].
      exact (Hall _ Hin).
Qed.

(** The results directory is made before the configuration is read: a
    run on a missing suite directory raises [FileNotFoundError] and
    does nothing, every other run starts by making its results
    directory, also one that fails in loading its configuration. *)
Theorem results_directory_first (test_suite : str) (tr tr' : list event)
    (res : result unit) :
  run_test_suite w format_filename test_suite tr = (res, tr') ->
  if exists_path w [u "test_suites"; test_suite]
  then exists rest,
         tr' = tr ++ Mkdir [u "results"; test_suite ++ u "_" ++ now_stamp w] :: rest
  else res = Raise FileNotFoundError /\ tr' = tr.
Proof.
  intros H.
  apply run_shape in H
    as [(-> & -> & ->)|[(-> & _ & ->)
                       |(config & models & f & res1 & tr1 & -> & _ & _ & _ & _ & Hloop & Hres)]].
  - auto.
  - eauto.
  - apply models_loop in Hloop as (new & -> & _).
    destruct res1 as [entries|e]; [destruct Hres as [-> _]|destruct Hres as [_ ->]];
      rewrite <- !app_assoc; eauto.
Qed.


End SuiteRun.

Section ScoringRunExamples.

Import Judge.

(** The sample scoring run on a results file that does not exist. *)
Lemma scoring_setup_errors_abort_witness :
  scoring_setup_error Sample.judge_world Sample.judge_config (u "results/demo/missing.txt")
  /\ exists e,
       score_results_file Sample.judge_world sum_left_to_right Sample.judge_config
         (u "results/demo/missing.txt") [] = (Raise e, []).
Proof.
  assert (scoring_setup_error Sample.judge_world Sample.judge_config
            (u "results/demo/missing.txt")) as H
    by (left; vm_compute; reflexivity).
  split; [exact H|].
  exact (scoring_setup_errors_abort Sample.judge_world sum_left_to_right
           Sample.judge_config (u "results/demo/missing.txt") [] H).
Defined.

(** The sample scoring run: three repetitions, four calls. *)
Lemma judge_calls_uniform_witness :
  score_results_file Sample.judge_world sum_left_to_right Sample.judge_config
    Sample.results_file [] = (Ok Sample.judge_output, Sample.judge_trace)
  /\ range (get Sample.judge_config "repetitions" (YInt 3)) = Ok [0; 1; 2]%nat
  /\ exists calls rest,
       Sample.judge_trace = [] ++ map Api calls ++ rest
       /\ Forall (fun e => is_write_scores e = true) rest
       /\ Forall (judge_call_ok Sample.judge_world Sample.judge_config Sample.results_file)
            calls
       /\ (length calls <= 2 * length [0; 1; 2]%nat)%nat
       /\ (forall out, Ok Sample.judge_output = Ok out ->
             (length [0; 1; 2]%nat <= length calls)%nat).
Proof.
  assert (score_results_file Sample.judge_world sum_left_to_right Sample.judge_config
            Sample.results_file [] = (Ok Sample.judge_output, Sample.judge_trace)) as H
    by (vm_compute; reflexivity).
  assert (range (get Sample.judge_config "repetitions" (YInt 3)) = Ok [0; 1; 2]%nat) as HR
    by (vm_compute; reflexivity).
  split; [exact H|]. split; [exact HR|].
  exact (judge_calls_uniform Sample.judge_world sum_left_to_right Sample.judge_config
           Sample.results_file [] Sample.judge_trace (Ok Sample.judge_output)
           [0; 1; 2]%nat H HR).
Defined.

Lemma summary_from_runs_witness :
  score_results_file Sample.judge_world sum_left_to_right Sample.judge_config
    Sample.results_file [] = (Ok Sample.judge_output, Sample.judge_trace)
  /\ calculate_statistics sum_left_to_right (out_runs Sample.judge_output)
     = Ok (out_summary Sample.judge_output)
  /\ md_scoring_api (out_metadata Sample.judge_output) = get_none Sample.judge_config "api"
  /\ md_scoring_model (out_metadata Sample.judge_output)
     = get_none Sample.judge_config "model"
  /\ md_repetitions (out_metadata Sample.judge_output)
     = get Sample.judge_config "repetitions" (YInt 3).
Proof.
  assert (score_results_file Sample.judge_world sum_left_to_right Sample.judge_config
            Sample.results_file [] = (Ok Sample.judge_output, Sample.judge_trace)) as H
    by (vm_compute; reflexivity).
  split; [exact H|].
  exact (summary_from_runs Sample.judge_world sum_left_to_right Sample.judge_config
           Sample.results_file [] Sample.judge_trace Sample.judge_output H).
Defined.

(** The scoring script on the sample run: left alone it returns after
    writing the scores; interrupted during its second judge call it
    exits with status 130, and nothing is written. *)
Example score_main_returns :
  ScoreMain.main Sample.scoring_world sum_left_to_right Sample.safe_load_demo
    [u "score-results.py"; Sample.results_file] None []
  = (Returned, Sample.judge_trace).
Proof. vm_compute. reflexivity. Qed.

Example score_main_interrupted :
  ScoreMain.main Sample.scoring_world sum_left_to_right Sample.safe_load_demo
    [u "score-results.py"; Sample.results_file] (Some 2%nat) []
  = (Exit 130, take 2 Sample.judge_trace).
Proof. vm_compute. reflexivity. Qed.

End ScoringRunExamples.

Section SuiteRunExamples.

Import Suite.


(** The transcript of the sample model. *)
Lemma transcript_all_or_nothing_witness :
  process_model Sample.suite_world Sample.format_demo Sample.suite_config
    Sample.suite_results_path Sample.suite_questions_path (YMap ∅) []
    (YMap Sample.suite_model) []
  = (Ok [Sample.suite_entry], Sample.model_trace)
  /\ ((exists new e,
         Ok [Sample.suite_entry] = Raise e /\ Sample.model_trace = [] ++ new
         /\ Forall (fun ev => is_write_text ev = false) new)
      \/ exists t calls answers filename,
           let rows := fst (read_rows Sample.suite_world Sample.suite_questions_path) in
           let content := concat (zip_with block_of rows answers) in
           let before := [] ++ PrintTemperature t :: map Generate calls in
           Sample.model_trace
           = before ++ [WriteText (Sample.suite_results_path ++ [filename]) content]
           /\ length answers = length rows
           /\ map rq_question calls = map (fun r => column r "Question") rows
           /\ replies Sample.suite_world ([] ++ [PrintTemperature t]) calls answers
           /\ write_text Sample.suite_world before
                (Sample.suite_results_path ++ [filename]) content = Ok tt
           /\ [Sample.suite_entry]
              = [] ++ [ManifestEntry (listed_name (YMap Sample.suite_model))
                         (Sample.suite_results_path ++ [filename])]).
Proof.
  assert (process_model Sample.suite_world Sample.format_demo Sample.suite_config
            Sample.suite_results_path Sample.suite_questions_path (YMap ∅) []
            (YMap Sample.suite_model) []
          = (Ok [Sample.suite_entry], Sample.model_trace)) as H
    by (vm_compute; reflexivity).
  split; [exact H|].
  exact (transcript_all_or_nothing Sample.suite_world Sample.format_demo
           Sample.suite_config Sample.suite_results_path Sample.suite_questions_path
           (YMap ∅) [] (YMap Sample.suite_model) [] Sample.model_trace
           (Ok [Sample.suite_entry]) H).
Defined.

(** The manifest of the sample suite. *)
Lemma manifest_lists_models_witness :
  run_test_suite Sample.suite_world Sample.format_demo (u "demo") []
  = (Ok tt, Sample.suite_trace)
  /\ ((exists new e,
         Ok tt = Raise e /\ Sample.suite_trace = [] ++ new
         /\ Forall (fun ev => is_write_manifest ev = false) new)
      \/ exists new config models entries,
           let p := [u "results"; u "demo" ++ u "_" ++ now_stamp Sample.suite_world;
                     u "resultset.json"] in
           let m := Manifest (YMap config) entries in
           Sample.suite_trace = [] ++ new ++ [WriteManifest p m]
           /\ Forall (fun ev => is_write_manifest ev = false) new
           /\ load_yaml Sample.suite_world [u "test_suites"; u "demo"; u "config.yaml"]
              = Ok (YMap config)
           /\ get config "models" (YSeq []) = YSeq models
           /\ map me_model_name entries = map listed_name models
           /\ omap written_file new = map me_results_file entries
           /\ dump_json Sample.suite_world ([] ++ new) p m = Ok tt
           /\ dumpable (YMap config) = true).
Proof.
  assert (run_test_suite Sample.suite_world Sample.format_demo (u "demo") []
          = (Ok tt, Sample.suite_trace)) as H
    by (vm_compute; reflexivity).
  split; [exact H|].
  exact (manifest_lists_models Sample.suite_world Sample.format_demo (u "demo") []
           Sample.suite_trace (Ok tt) H).
Defined.

(** The sample suite: one model, two rows. *)
Lemma generation_count_witness :
  run_test_suite Sample.suite_world Sample.format_demo (u "demo") []
  = (Ok tt, Sample.suite_trace)
  /\ exists new config models f,
       Sample.suite_trace = [] ++ new
       /\ load_yaml Sample.suite_world [u "test_suites"; u "demo"; u "config.yaml"]
          = Ok (YMap config)
       /\ get config "models" (YSeq []) = YSeq models
       /\ get config "questions_file" (YStr (u "questions.csv")) = YStr f
       /\ length (omap asked new)
          = (length models
             * length (fst (read_rows Sample.suite_world [u "test_suites"; u "demo"; f])))%nat
       /\ length (omap written_file new) = length models.
Proof.
  assert (run_test_suite Sample.suite_world Sample.format_demo (u "demo") []
          = (Ok tt, Sample.suite_trace)) as H
    by (vm_compute; reflexivity).
  split; [exact H|].
  exact (generation_count Sample.suite_world Sample.format_demo (u "demo") []
           Sample.suite_trace H).
Defined.

Lemma calls_name_configured_models_witness :
  run_test_suite Sample.suite_world Sample.format_demo (u "demo") []
  = (Ok tt, Sample.suite_trace)
  /\ exists new,
       Sample.suite_trace = [] ++ new
       /\ forall rq,
            Generate rq ∈ new ->
            exists config models d,
              load_yaml Sample.suite_world [u "test_suites"; u "demo"; u "config.yaml"]
                = Ok (YMap config)
              /\ get config "models" (YSeq []) = YSeq models
              /\ Forall (fun m => exists d' name, m = YMap d' /\ d' !! u "name" = Some name)
                   models
              /\ YMap d ∈ models
              /\ d !! u "name" = Some (rq_model rq)
              /\ rq_temperature rq = get d "temperature" (YFloat 0).
Proof.
  assert (run_test_suite Sample.suite_world Sample.format_demo (u "demo") []
          = (Ok tt, Sample.suite_trace)) as H
    by (vm_compute; reflexivity).
  split; [exact H|].
  exact (calls_name_configured_models Sample.suite_world Sample.format_demo (u "demo") []
           Sample.suite_trace (Ok tt) H).
Defined.

(** The sample suite without its configuration file: the results
    directory is made, and nothing else. *)
Lemma results_directory_first_witness :
  run_test_suite Sample.bare_world Sample.format_demo (u "demo") []
  = (Raise FileNotFoundError, [Mkdir Sample.suite_results_path])
  /\ if exists_path Sample.bare_world [u "test_suites"; u "demo"]
     then exists rest,
            [Mkdir Sample.suite_results_path]
            = [] ++ Mkdir [u "results"; u "demo" ++ u "_" ++ now_stamp Sample.bare_world]
                      :: rest
     else (Raise FileNotFoundError : result unit) = Raise FileNotFoundError
          /\ [Mkdir Sample.suite_results_path] = [].
Proof.
  assert (run_test_suite Sample.bare_world Sample.format_demo (u "demo") []
          = (Raise FileNotFoundError, [Mkdir Sample.suite_results_path])) as H
    by (vm_compute; reflexivity).
  split; [exact H|].
  exact (results_directory_first Sample.bare_world Sample.format_demo (u "demo") []
           [Mkdir Sample.suite_results_path] (Raise FileNotFoundError) H).
Defined.

End SuiteRunExamples.
